(** * The nucleus coordinator: [run] of cmd/nucleus/bin.go

    A shallow embedding of [run] in two parts.

    - The start-up (lines 58-166) is sequential: it is written in a small
      state-and-stop monad over a [World] holding the process-wide
      [global.NeuronHost] and the chronological list of observable events.
    - The concurrent tail (lines 168-217) is a labelled transition system
      over the main goroutine, the two task goroutines, the goroutine that
      waits on the WaitGroup, the interrupt channel and the clock. *)

From Stdlib Require Import ZArith List String Ascii Bool Lia.
Import ListNotations.
Open Scope string_scope.
Open Scope Z_scope.
Open Scope list_scope.

(** ** Configuration, as far as [run] reads and writes it *)

Record LoggingConfig := mkLoggingConfig {
  FileLocation : string
}.

Record NucleusConfig := mkNucleusConfig {
  LogFile     : string;
  LogConfig   : LoggingConfig;
  Verbose     : bool;
  LocalRunner : bool;
  SynapseHost : string
}.

(** Functions of Go's library and constants of pkg/global that [run] uses
    and that are declared outside cmd/nucleus/bin.go. *)
Record Externals := mkExternals {
  TrimSpace              : string -> string;           (* strings.TrimSpace *)
  filepath_Join          : string -> string -> string; (* filepath.Join, two elements *)
  NeuronRemoteHost       : string;                     (* global.NeuronRemoteHost *)
  NUCLEUS_BINARY_VERSION : string                      (* global.NUCLEUS_BINARY_VERSION *)
}.

(** ** Values built by the collaborators' constructors

    The constructors live in other packages; a value they return is kept
    as the constructor's name applied to the arguments [run] passed. *)

Inductive Ctor :=
| LoadNucleusConfig | NewLogger | NewPipeline | teststats_New
| NewAzureBlobEnv | NewPayloadManger | secret_New | NewTASConfigManager
| NewGitManager | NewDiffManager | NewExecutionManager
| NewTestDiscoveryService | NewTestExecutionService
| NewTestBlockListService | NewRouter | task_New | zstd_New
| cachemanager_New | parser_New | coverage_New.

#[warnings="-register-all"]
Inductive Obj :=
| ONil
| OCmd                                   (* cmd, run's first argument *)
| OCtx                                   (* ctx of line 58 *)
| OCfg (cfg : NucleusConfig)
| OLogConfig (lc : LoggingConfig)
| OBool (b : bool)
| OInstanceZapLogger
| ONew (c : Ctor) (args : list Obj).

(** The fourteen plugin fields of core.Pipeline that [run] assigns. *)
Record Pipeline := mkPipeline {
  PayloadManager       : Obj;
  TASConfigManager     : Obj;
  GitManager           : Obj;
  DiffManager          : Obj;
  TestDiscoveryService : Obj;
  TestBlockListService : Obj;
  TestExecutionService : Obj;
  ExecutionManager     : Obj;
  ParserService        : Obj;
  CoverageService      : Obj;
  TestStats            : Obj;
  Task                 : Obj;
  CacheStore           : Obj;
  SecretParser         : Obj
}.

(** [pl.F = v], field by field. *)
Definition set_PayloadManager (v : Obj) (pl : Pipeline) : Pipeline :=
  mkPipeline v (TASConfigManager pl) (GitManager pl) (DiffManager pl)
    (TestDiscoveryService pl) (TestBlockListService pl)
    (TestExecutionService pl) (ExecutionManager pl) (ParserService pl)
    (CoverageService pl) (TestStats pl) (Task pl) (CacheStore pl)
    (SecretParser pl).
Definition set_TASConfigManager (v : Obj) (pl : Pipeline) : Pipeline :=
  mkPipeline (PayloadManager pl) v (GitManager pl) (DiffManager pl)
    (TestDiscoveryService pl) (TestBlockListService pl)
    (TestExecutionService pl) (ExecutionManager pl) (ParserService pl)
    (CoverageService pl) (TestStats pl) (Task pl) (CacheStore pl)
    (SecretParser pl).
Definition set_GitManager (v : Obj) (pl : Pipeline) : Pipeline :=
  mkPipeline (PayloadManager pl) (TASConfigManager pl) v (DiffManager pl)
    (TestDiscoveryService pl) (TestBlockListService pl)
    (TestExecutionService pl) (ExecutionManager pl) (ParserService pl)
    (CoverageService pl) (TestStats pl) (Task pl) (CacheStore pl)
    (SecretParser pl).
Definition set_DiffManager (v : Obj) (pl : Pipeline) : Pipeline :=
  mkPipeline (PayloadManager pl) (TASConfigManager pl) (GitManager pl) v
    (TestDiscoveryService pl) (TestBlockListService pl)
    (TestExecutionService pl) (ExecutionManager pl) (ParserService pl)
    (CoverageService pl) (TestStats pl) (Task pl) (CacheStore pl)
    (SecretParser pl).
Definition set_TestDiscoveryService (v : Obj) (pl : Pipeline) : Pipeline :=
  mkPipeline (PayloadManager pl) (TASConfigManager pl) (GitManager pl)
    (DiffManager pl) v (TestBlockListService pl) (TestExecutionService pl)
    (ExecutionManager pl) (ParserService pl) (CoverageService pl)
    (TestStats pl) (Task pl) (CacheStore pl) (SecretParser pl).
Definition set_TestBlockListService (v : Obj) (pl : Pipeline) : Pipeline :=
  mkPipeline (PayloadManager pl) (TASConfigManager pl) (GitManager pl)
    (DiffManager pl) (TestDiscoveryService pl) v (TestExecutionService pl)
    (ExecutionManager pl) (ParserService pl) (CoverageService pl)
    (TestStats pl) (Task pl) (CacheStore pl) (SecretParser pl).
Definition set_TestExecutionService (v : Obj) (pl : Pipeline) : Pipeline :=
  mkPipeline (PayloadManager pl) (TASConfigManager pl) (GitManager pl)
    (DiffManager pl) (TestDiscoveryService pl) (TestBlockListService pl) v
    (ExecutionManager pl) (ParserService pl) (CoverageService pl)
    (TestStats pl) (Task pl) (CacheStore pl) (SecretParser pl).
Definition set_ExecutionManager (v : Obj) (pl : Pipeline) : Pipeline :=
  mkPipeline (PayloadManager pl) (TASConfigManager pl) (GitManager pl)
    (DiffManager pl) (TestDiscoveryService pl) (TestBlockListService pl)
    (TestExecutionService pl) v (ParserService pl) (CoverageService pl)
    (TestStats pl) (Task pl) (CacheStore pl) (SecretParser pl).
Definition set_ParserService (v : Obj) (pl : Pipeline) : Pipeline :=
  mkPipeline (PayloadManager pl) (TASConfigManager pl) (GitManager pl)
    (DiffManager pl) (TestDiscoveryService pl) (TestBlockListService pl)
    (TestExecutionService pl) (ExecutionManager pl) v (CoverageService pl)
    (TestStats pl) (Task pl) (CacheStore pl) (SecretParser pl).
Definition set_CoverageService (v : Obj) (pl : Pipeline) : Pipeline :=
  mkPipeline (PayloadManager pl) (TASConfigManager pl) (GitManager pl)
    (DiffManager pl) (TestDiscoveryService pl) (TestBlockListService pl)
    (TestExecutionService pl) (ExecutionManager pl) (ParserService pl) v
    (TestStats pl) (Task pl) (CacheStore pl) (SecretParser pl).
Definition set_TestStats (v : Obj) (pl : Pipeline) : Pipeline :=
  mkPipeline (PayloadManager pl) (TASConfigManager pl) (GitManager pl)
    (DiffManager pl) (TestDiscoveryService pl) (TestBlockListService pl)
    (TestExecutionService pl) (ExecutionManager pl) (ParserService pl)
    (CoverageService pl) v (Task pl) (CacheStore pl) (SecretParser pl).
Definition set_Task (v : Obj) (pl : Pipeline) : Pipeline :=
  mkPipeline (PayloadManager pl) (TASConfigManager pl) (GitManager pl)
    (DiffManager pl) (TestDiscoveryService pl) (TestBlockListService pl)
    (TestExecutionService pl) (ExecutionManager pl) (ParserService pl)
    (CoverageService pl) (TestStats pl) v (CacheStore pl) (SecretParser pl).
Definition set_CacheStore (v : Obj) (pl : Pipeline) : Pipeline :=
  mkPipeline (PayloadManager pl) (TASConfigManager pl) (GitManager pl)
    (DiffManager pl) (TestDiscoveryService pl) (TestBlockListService pl)
    (TestExecutionService pl) (ExecutionManager pl) (ParserService pl)
    (CoverageService pl) (TestStats pl) (Task pl) v (SecretParser pl).
Definition set_SecretParser (v : Obj) (pl : Pipeline) : Pipeline :=
  mkPipeline (PayloadManager pl) (TASConfigManager pl) (GitManager pl)
    (DiffManager pl) (TestDiscoveryService pl) (TestBlockListService pl)
    (TestExecutionService pl) (ExecutionManager pl) (ParserService pl)
    (CoverageService pl) (TestStats pl) (Task pl) (CacheStore pl) v.

(** ** Observable events and the world *)

Inductive Level := Debug | Info | Error | Fatal.

Inductive Event :=
| EPrintf (fmt : string)                              (* fmt.Printf *)
| EStdFatalf (fmt : string) (args : list string)      (* log.Fatalf's output *)
| ELog (lv : Level) (fmt : string) (args : list string)
| ESetNeuronHost (h : string)                         (* global.SetNeuronHost *)
| ECall (c : Ctor) (args : list Obj).                  (* a constructor is called *)

Record World := mkWorld {
  events     : list Event;   (* oldest first *)
  NeuronHost : string        (* global.NeuronHost *)
}.

(** Where the process stops during start-up. *)
Inductive Site :=
| AtTestStats | AtAzure | AtAzureNotLocal | AtBlockList | AtTask
| AtZstd | AtCache | AtParser | AtCoverage.

Inductive Stop :=
| OsExit (code : Z)          (* os.Exit(code); log.Fatalf is os.Exit(1) *)
| LoggerFatalf (site : Site) (* logger.Fatalf at the given place *).

(** What the environment answers to the calls that can fail. *)
Record Env := mkEnv {
  load_config  : NucleusConfig + string;  (* config.LoadNucleusConfig(cmd) *)
  ctor_err     : Ctor -> option string;   (* the err a constructor returns *)
  new_pipeline : Pipeline                 (* the fields of core.NewPipeline's result *)
}.

(** ** The start-up monad *)

Definition M (A : Type) : Type := World -> World * (A + Stop).

Definition ret {A} (a : A) : M A := fun w => (w, inl a).

Definition bind {A B} (m : M A) (k : A -> M B) : M B :=
  fun w => match m w with
           | (w', inl a) => k a w'
           | (w', inr s) => (w', inr s)
           end.

Notation "x <- m ;; k" := (bind m (fun x => k))
  (at level 61, m at next level, right associativity).
Notation "' p <- m ;; k" := (bind m (fun x => match x with p => k end))
  (at level 61, p pattern, m at next level, right associativity).
Notation "m ;;; k" := (bind m (fun _ => k))
  (at level 61, right associativity).

Definition emit (e : Event) : M unit :=
  fun w => (mkWorld (events w ++ [e]) (NeuronHost w), inl tt).

Definition stop {A} (s : Stop) : M A := fun w => (w, inr s).

Definition when (b : bool) (m : M unit) : M unit :=
  if b then m else ret tt.

Definition get_NeuronHost : M string := fun w => (w, inl (NeuronHost w)).

(** global.SetNeuronHost(h) *)
Definition SetNeuronHost (h : string) : M unit :=
  fun w => (mkWorld (events w ++ [ESetNeuronHost h]) h, inl tt).

Definition os_Exit {A} (code : Z) : M A := stop (OsExit code).

(** Go's log.Fatalf: Printf followed by os.Exit(1). *)
Definition log_Fatalf {A} (fmt : string) (args : list string) : M A :=
  emit (EStdFatalf fmt args) ;;; os_Exit 1.

Definition logf (lv : Level) (fmt : string) (args : list string) : M unit :=
  emit (ELog lv fmt args).

(** lumber's logger is declared outside this file; its Fatalf is taken,
    like log.Fatalf, to write the entry and end the process. The place of
    the call is kept so that two calls with one message stay apart. *)
Definition logger_Fatalf {A} (site : Site) (fmt : string) (args : list string)
  : M A :=
  emit (ELog Fatal fmt args) ;;; stop (LoggerFatalf site).

Definition is_err (e : option string) : bool :=
  match e with Some _ => true | None => false end.

Definition err_Error (e : option string) : string :=
  match e with Some s => s | None => "" end.

Definition fmt_bool (b : bool) : string := if b then "true" else "false".

(** The line feed that ends the format of line 96. *)
Definition newline : string := String "010"%char EmptyString.

(** What the two goroutines of the tail are started with. *)
Record Launch := mkLaunch {
  la_cfg    : NucleusConfig;
  la_logger : Obj;
  la_pl     : Pipeline;
  la_router : Obj
}.

Section Startup.

Variable X : Externals.
Variable env : Env.

(** [v, err := c(args)]: nil and the error, or the value and no error. *)
Definition call2 (c : Ctor) (args : list Obj) : M (Obj * option string) :=
  emit (ECall c args) ;;;
  match ctor_err env c with
  | Some e => ret (ONil, Some e)
  | None => ret (ONew c args, None)
  end.

(** [v := c(args)] for the constructors with a single result. *)
Definition call1 (c : Ctor) (args : list Obj) : M Obj :=
  emit (ECall c args) ;;; ret (ONew c args).

(** Lines 67-76: load the configuration, patch the log file location. *)
Definition load_and_patch : M NucleusConfig :=
  emit (ECall LoadNucleusConfig [OCmd]) ;;;
  cfg <- match load_config env with
         | inr err =>
             emit (EPrintf ("[Error] Failed to load config: " ++ err)%string) ;;;
             os_Exit 1
         | inl cfg => ret cfg
         end ;;
  ret (if negb (String.eqb (LogFile cfg) "")
       then mkNucleusConfig (LogFile cfg)
              (mkLoggingConfig (filepath_Join X (LogFile cfg) "nucleus.log"))
              (Verbose cfg) (LocalRunner cfg) (SynapseHost cfg)
       else cfg).

(** Lines 80-84. *)
Definition make_logger (cfg : NucleusConfig) : M Obj :=
  '(logger, err) <- call2 NewLogger
      [OLogConfig (LogConfig cfg); OBool (Verbose cfg); OInstanceZapLogger] ;;
  when (is_err err)
    (log_Fatalf "Could not instantiate logger %s" [err_Error err]) ;;;
  logf Debug "Running on local: %t" [fmt_bool (LocalRunner cfg)] ;;;
  ret logger.

(** Lines 86-93. *)
Definition resolve_host (cfg : NucleusConfig) : M unit :=
  if LocalRunner cfg then
    old <- get_NeuronHost ;;
    logf Info "Local runner detected , changing IP from: %s to: %s"
      [old; SynapseHost cfg] ;;;
    SetNeuronHost (TrimSpace X (SynapseHost cfg)) ;;;
    now <- get_NeuronHost ;;
    logf Info "change neuron host to %s" [now]
  else
    SetNeuronHost (NeuronRemoteHost X).

(** Lines 58-166 of [run]. *)
Definition startup : M Launch :=
  let ctx := OCtx in
  cfg <- load_and_patch ;;
  logger <- make_logger cfg ;;
  resolve_host cfg ;;;
  '(_, err) <- call2 NewPipeline [OCfg cfg; logger] ;;
  when (is_err err)
    (logf Error ("Unable to create the pipeline: %+v" ++ newline)%string
       [err_Error err] ;;;
     logf Error "Aborting ..." [] ;;;
     os_Exit 1) ;;;
  let pl := new_pipeline env in
  '(ts, err) <- call2 teststats_New [OCfg cfg; logger] ;;
  when (is_err err)
    (logger_Fatalf AtTestStats
       "failed to initialize test stats service: %v" [err_Error err]) ;;;
  '(azureClient, err) <- call2 NewAzureBlobEnv [OCfg cfg; logger] ;;
  when (is_err err)
    (logger_Fatalf AtAzure
       "failed to initialize azure blob: %v" [err_Error err]) ;;;
  when (is_err err && negb (LocalRunner cfg))
    (logger_Fatalf AtAzureNotLocal
       "failed to initialize azure blob: %v" [err_Error err]) ;;;
  (* attach plugins to pipeline *)
  pm <- call1 NewPayloadManger [azureClient; logger; OCfg cfg] ;;
  secretParser <- call1 secret_New [logger] ;;
  tcm <- call1 NewTASConfigManager [logger] ;;
  gm <- call1 NewGitManager [logger] ;;
  dm <- call1 NewDiffManager [OCfg cfg; logger] ;;
  execManager <- call1 NewExecutionManager [secretParser; azureClient; logger] ;;
  tds <- call1 NewTestDiscoveryService [execManager; logger] ;;
  tes <- call1 NewTestExecutionService [execManager; azureClient; ts; logger] ;;
  '(tbs, err) <- call2 NewTestBlockListService [OCfg cfg; logger] ;;
  when (is_err err)
    (logger_Fatalf AtBlockList
       "failed to initialize test blocklist service: %v" [err_Error err]) ;;;
  router <- call1 NewRouter [logger; ts] ;;
  '(t, err) <- call2 task_New [ctx; OCfg cfg; logger] ;;
  when (is_err err)
    (logger_Fatalf AtTask "failed to initialize task: %v" [err_Error err]) ;;;
  '(zstd, err) <- call2 zstd_New [execManager; logger] ;;
  when (is_err err)
    (logger_Fatalf AtZstd
       "failed to initialize zstd compressor: %v" [err_Error err]) ;;;
  '(cache, err) <- call2 cachemanager_New [zstd; azureClient; logger] ;;
  when (is_err err)
    (logger_Fatalf AtCache
       "failed to initialize cache manager: %v" [err_Error err]) ;;;
  '(parserService, err) <- call2 parser_New [ctx; tcm; logger] ;;
  when (is_err err)
    (logger_Fatalf AtParser
       "failed to initialize parser service: %v" [err_Error err]) ;;;
  '(coverageService, err) <- call2 coverage_New
      [execManager; azureClient; zstd; OCfg cfg; logger] ;;
  when (is_err err)
    (logger_Fatalf AtCoverage
       "failed to initialize coverage service: %v" [err_Error err]) ;;;
  (* lines 151-164 *)
  let pl := set_PayloadManager pm pl in
  let pl := set_TASConfigManager tcm pl in
  let pl := set_GitManager gm pl in
  let pl := set_DiffManager dm pl in
  let pl := set_TestDiscoveryService tds pl in
  let pl := set_TestBlockListService tbs pl in
  let pl := set_TestExecutionService tes pl in
  let pl := set_ExecutionManager execManager pl in
  let pl := set_ParserService parserService pl in
  let pl := set_CoverageService coverageService pl in
  let pl := set_TestStats ts pl in
  let pl := set_Task t pl in
  let pl := set_CacheStore cache pl in
  let pl := set_SecretParser secretParser pl in
  logf Info "LambdaTest Nucleus version: %s" [NUCLEUS_BINARY_VERSION X] ;;;
  ret (mkLaunch cfg logger pl router).

End Startup.

(** ** The concurrent tail of [run] (lines 168-217) *)

(** Durations are nanoseconds, as Go's time.Duration. *)
Definition Millisecond : Z := 1000000.
Definition gracefulTimeout : Z := 5000 * Millisecond.

Inductive TaskId := PipelineTask | ServerTask.

(** How a task's body came back; [run] drops what pl.Start and
    server.ListenAndServe return. *)
Inductive Result := Succeeded | Failed.

Inductive TaskPc :=
| TNotStarted
| TBody                      (* in pl.Start(ctx) / server.ListenAndServe(...) *)
| TDeferWgDone (r : Result)  (* body is back; the deferred wg.Done() is next *)
| TDeferCancel (r : Result)  (* the deferred cancel() is next *)
| TEnd (r : Result).

Inductive WaiterPc :=
| WNotStarted
| WWait                      (* in wg.Wait() *)
| WClose                     (* Debugf and close(done) are next *)
| WEnd.

Inductive MainPc :=
| MWgAdd1 | MGoPipeline | MWgAdd2 | MGoServer | MNotify | MGoWaiter
| MSelect                    (* line 199 *)
| MCancel                    (* line 205 *)
| MGraceEnter                (* line 206: the select's operands are evaluated *)
| MGrace                     (* blocked in the select of line 206 *)
| MReturn                    (* line 218; the deferred cancel of line 59 is next *)
| MEnd.

(** How the process leaves [run]. *)
Inductive Outcome :=
| Exited (code : Z)          (* os.Exit(code) *)
| Returned                   (* run returned to its caller *)
| Panicked.                  (* sync: negative WaitGroup counter *)

Record State := mkState {
  world       : World;
  cancelled   : bool;          (* ctx is cancelled *)
  wg          : Z;             (* the WaitGroup's counter *)
  pipeline    : TaskPc;
  server      : TaskPc;
  waiter      : WaiterPc;
  done_closed : bool;          (* close(done) has happened *)
  notified    : bool;          (* signal.Notify(c, os.Interrupt) has happened *)
  sig_pending : bool;          (* c, of capacity 1, holds a signal *)
  main        : MainPc;
  clock       : Z;             (* nanoseconds since the tail began *)
  timer       : option Z;      (* when time.After(gracefulTimeout) fires *)
  proc        : option Outcome (* the process has ended *)
}.

(** The state with one field replaced. *)
Definition set_world (v : World) (s : State) : State :=
  let '(mkState _ c g p sv wt dc nt sp m ck tm pr) := s in
  mkState v c g p sv wt dc nt sp m ck tm pr.
Definition set_cancelled (v : bool) (s : State) : State :=
  let '(mkState w _ g p sv wt dc nt sp m ck tm pr) := s in
  mkState w v g p sv wt dc nt sp m ck tm pr.
Definition set_wg (v : Z) (s : State) : State :=
  let '(mkState w c _ p sv wt dc nt sp m ck tm pr) := s in
  mkState w c v p sv wt dc nt sp m ck tm pr.
Definition set_pipeline (v : TaskPc) (s : State) : State :=
  let '(mkState w c g _ sv wt dc nt sp m ck tm pr) := s in
  mkState w c g v sv wt dc nt sp m ck tm pr.
Definition set_server (v : TaskPc) (s : State) : State :=
  let '(mkState w c g p _ wt dc nt sp m ck tm pr) := s in
  mkState w c g p v wt dc nt sp m ck tm pr.
Definition set_waiter (v : WaiterPc) (s : State) : State :=
  let '(mkState w c g p sv _ dc nt sp m ck tm pr) := s in
  mkState w c g p sv v dc nt sp m ck tm pr.
Definition set_done_closed (v : bool) (s : State) : State :=
  let '(mkState w c g p sv wt _ nt sp m ck tm pr) := s in
  mkState w c g p sv wt v nt sp m ck tm pr.
Definition set_notified (v : bool) (s : State) : State :=
  let '(mkState w c g p sv wt dc _ sp m ck tm pr) := s in
  mkState w c g p sv wt dc v sp m ck tm pr.
Definition set_sig_pending (v : bool) (s : State) : State :=
  let '(mkState w c g p sv wt dc nt _ m ck tm pr) := s in
  mkState w c g p sv wt dc nt v m ck tm pr.
Definition set_main (v : MainPc) (s : State) : State :=
  let '(mkState w c g p sv wt dc nt sp _ ck tm pr) := s in
  mkState w c g p sv wt dc nt sp v ck tm pr.
Definition set_clock (v : Z) (s : State) : State :=
  let '(mkState w c g p sv wt dc nt sp m _ tm pr) := s in
  mkState w c g p sv wt dc nt sp m v tm pr.
Definition set_timer (v : option Z) (s : State) : State :=
  let '(mkState w c g p sv wt dc nt sp m ck _ pr) := s in
  mkState w c g p sv wt dc nt sp m ck v pr.
Definition set_proc (v : option Outcome) (s : State) : State :=
  let '(mkState w c g p sv wt dc nt sp m ck tm _) := s in
  mkState w c g p sv wt dc nt sp m ck tm v.

Definition task_pc (t : TaskId) (s : State) : TaskPc :=
  match t with PipelineTask => pipeline s | ServerTask => server s end.

Definition set_task (t : TaskId) (v : TaskPc) (s : State) : State :=
  match t with
  | PipelineTask => set_pipeline v s
  | ServerTask => set_server v s
  end.

(** A logger call of the tail appends to the world's events. *)
Definition log (lv : Level) (fmt : string) (s : State) : State :=
  set_world (mkWorld (events (world s) ++ [ELog lv fmt []])
               (NeuronHost (world s))) s.

(** cancel(): cancelling a cancelled context changes nothing. *)
Definition cancel (s : State) : State := set_cancelled true s.

(** wg.Add(1) *)
Definition wg_Add1 (s : State) : State := set_wg (wg s + 1) s.

(** wg.Done(): panics when the counter would go below zero. *)
Definition wg_Done (s : State) : State :=
  if wg s - 1 <? 0 then set_proc (Some Panicked) s
  else set_wg (wg s - 1) s.

(** One atomic step of one goroutine, of the signal relay or of the
    clock. *)
Inductive Label :=
(* the main goroutine, lines 168-196 *)
| WgAdd1                     (* wg.Add(1) of line 168 *)
| GoPipeline                 (* go func() of line 169 *)
| WgAdd2                     (* wg.Add(1) of line 175 *)
| GoServer                   (* go func() of line 176 *)
| Notify                     (* lines 182-183: make c, signal.Notify *)
| GoWaiter                   (* lines 188-191: make done, go func() *)
(* the main goroutine, lines 199-218 *)
| SelectSig                  (* case <-c, with the two Debugf of 202-204 *)
| SelectDone                 (* case <-done: os.Exit(0) *)
| MainCancel                 (* cancel() of line 205 *)
| EnterGrace                 (* time.After(gracefulTimeout) is armed *)
| GraceDone                  (* case <-done of line 207 *)
| GraceTimeout               (* case <-time.After(...) of line 209 *)
| RunReturn                  (* run returns, running defer cancel() *)
(* a task goroutine *)
| TaskReturn (t : TaskId) (r : Result) (* the body returns *)
| TaskWgDone (t : TaskId)    (* the deferred wg.Done(), registered last *)
| TaskCancel (t : TaskId)    (* the deferred cancel(), registered first *)
(* the goroutine of lines 191-196 *)
| WaitReturn                 (* wg.Wait() returns *)
| CloseDone                  (* Debugf, then close(done) *)
(* the environment *)
| Interrupt                  (* os.Interrupt is relayed to c, once Notify ran *)
| Tick (d : Z).              (* d nanoseconds pass *)

(** [step l s] is the state after the step [l], or [None] when [l]
    cannot happen in [s]: a statement only where its goroutine stands, a
    receive only from a channel that is ready, wg.Wait() only with the
    counter at zero, nothing once the process has ended. Where a select
    has two ready cases either label can step, as Go picks one of them.
    An interrupt that comes before signal.Notify is not relayed to c and
    is not part of the model. *)
Definition step (l : Label) (s : State) : option State :=
  match proc s with
  | Some _ => None
  | None =>
    match l with
    | WgAdd1 =>
        match main s with
        | MWgAdd1 => Some (set_main MGoPipeline (wg_Add1 s))
        | _ => None
        end
    | GoPipeline =>
        match main s with
        | MGoPipeline => Some (set_main MWgAdd2 (set_pipeline TBody s))
        | _ => None
        end
    | WgAdd2 =>
        match main s with
        | MWgAdd2 => Some (set_main MGoServer (wg_Add1 s))
        | _ => None
        end
    | GoServer =>
        match main s with
        | MGoServer => Some (set_main MNotify (set_server TBody s))
        | _ => None
        end
    | Notify =>
        match main s with
        | MNotify => Some (set_main MGoWaiter (set_notified true s))
        | _ => None
        end
    | GoWaiter =>
        match main s with
        | MGoWaiter => Some (set_main MSelect (set_waiter WWait s))
        | _ => None
        end
    | SelectSig =>
        match main s with
        | MSelect =>
            if sig_pending s then
              Some (set_main MCancel
                      (log Debug "main: telling goroutines to stop"
                         (log Debug
                            "main: received C-c - attempting graceful shutdown ...."
                            (set_sig_pending false s))))
            else None
        | _ => None
        end
    | SelectDone =>
        match main s with
        | MSelect =>
            if done_closed s then
              Some (set_main MEnd (set_proc (Some (Exited 0)) s))
            else None
        | _ => None
        end
    | MainCancel =>
        match main s with
        | MCancel => Some (set_main MGraceEnter (cancel s))
        | _ => None
        end
    | EnterGrace =>
        match main s with
        | MGraceEnter =>
            Some (set_main MGrace
                    (set_timer (Some (clock s + gracefulTimeout)) s))
        | _ => None
        end
    | GraceDone =>
        match main s with
        | MGrace =>
            if done_closed s then
              Some (set_main MReturn
                      (log Debug "Go routines exited within timeout" s))
            else None
        | _ => None
        end
    | GraceTimeout =>
        match main s, timer s with
        | MGrace, Some deadline =>
            if deadline <=? clock s then
              Some (set_main MReturn
                      (log Error
                         "Graceful timeout exceeded. Brutally killing the application"
                         s))
            else None
        | _, _ => None
        end
    | RunReturn =>
        match main s with
        | MReturn => Some (set_main MEnd (set_proc (Some Returned) (cancel s)))
        | _ => None
        end
    | TaskReturn t r =>
        match task_pc t s with
        | TBody => Some (set_task t (TDeferWgDone r) s)
        | _ => None
        end
    | TaskWgDone t =>
        match task_pc t s with
        | TDeferWgDone r => Some (set_task t (TDeferCancel r) (wg_Done s))
        | _ => None
        end
    | TaskCancel t =>
        match task_pc t s with
        | TDeferCancel r => Some (set_task t (TEnd r) (cancel s))
        | _ => None
        end
    | WaitReturn =>
        match waiter s with
        | WWait => if wg s =? 0 then Some (set_waiter WClose s) else None
        | _ => None
        end
    | CloseDone =>
        match waiter s with
        | WClose =>
            Some (set_waiter WEnd
                    (set_done_closed true
                       (log Debug "main: all goroutines have finished." s)))
        | _ => None
        end
    | Interrupt =>
        if notified s then Some (set_sig_pending true s) else None
    | Tick d =>
        if 0 <=? d then Some (set_clock (clock s + d) s) else None
    end
  end.

(** A schedule is the list of steps in the order they happen. *)
Fixpoint exec (tr : list Label) (s : State) : option State :=
  match tr with
  | [] => Some s
  | l :: tr' =>
      match step l s with
      | Some s' => exec tr' s'
      | None => None
      end
  end.

(** The tail's first state, in the world the start-up left. *)
Definition init (w : World) : State :=
  mkState w false 0 TNotStarted TNotStarted WNotStarted false false false
    MWgAdd1 0 None None.

(** [run] under the answers [env], from the world [w0], with the
    goroutines scheduled as [tr] says: the start-up's stop, or the state
    the tail is in after [tr]. *)
Definition run (X : Externals) (env : Env) (w0 : World) (tr : list Label)
  : option (World * Stop + Launch * State) :=
  match startup X env w0 with
  | (w, inr st) => Some (inl (w, st))
  | (w, inl la) =>
      match exec tr (init w) with
      | Some s => Some (inr (la, s))
      | None => None
      end
  end.

(** Modelled from the spec: the caller of [run] (the program's main,
    through the command's Execute) is not among the sources. The spec's
    lifecycle protocol lets the path on which both tasks finish within the
    grace period "exit normally" with exit code 0, and that path ends by
    returning from [run]; so a return from [run] ends the process with
    status 0, as a Go program does when its main returns. *)
Definition run_return_status : Z := 0.

(** The exit status of the process; a Go panic exits with 2. *)
Definition exit_status (o : Outcome) : Z :=
  match o with
  | Exited code => code
  | Returned => run_return_status
  | Panicked => 2
  end.

(** The fourteen plugin fields of the pipeline, by name. *)
Inductive Field :=
| FPayloadManager | FTASConfigManager | FGitManager | FDiffManager
| FTestDiscoveryService | FTestBlockListService | FTestExecutionService
| FExecutionManager | FParserService | FCoverageService | FTestStats
| FTask | FCacheStore | FSecretParser.

Definition field (f : Field) (pl : Pipeline) : Obj :=
  match f with
  | FPayloadManager => PayloadManager pl
  | FTASConfigManager => TASConfigManager pl
  | FGitManager => GitManager pl
  | FDiffManager => DiffManager pl
  | FTestDiscoveryService => TestDiscoveryService pl
  | FTestBlockListService => TestBlockListService pl
  | FTestExecutionService => TestExecutionService pl
  | FExecutionManager => ExecutionManager pl
  | FParserService => ParserService pl
  | FCoverageService => CoverageService pl
  | FTestStats => TestStats pl
  | FTask => Task pl
  | FCacheStore => CacheStore pl
  | FSecretParser => SecretParser pl
  end.

(** What a run of the orchestrator's Start does with collaborators:
    the ones its stages use, in order, and the constructors it calls. *)
Record StartRun := mkStartRun {
  uses : list Obj;
  constructs : list Ctor
}.

(** Modelled from the spec: core.Pipeline's Start is not among the
    sources. Section 4.1 of the spec has the orchestrator as one that
    "never constructs them itself - it is purely a sequencer over
    externally supplied capabilities": a run of Start goes through its
    stages in their order, each stage carried out by the collaborator
    read from a field of the pipeline, and calls no constructor.
    [stages] names the field each stage reads. *)
Definition Start (stages : list Field) (pl : Pipeline) : StartRun :=
  mkStartRun (map (fun f => field f pl) stages) [].

(** ** Vocabulary of the statements *)

(** How often global.SetNeuronHost was called. *)
Definition host_sets (l : list Event) : nat :=
  List.length (filter (fun e => match e with ESetNeuronHost _ => true | _ => false end)
            l).

(** The pipeline of lines 151-164: the fourteen fields, each holding what
    the start-up constructed from the configuration [cfg]. *)
Definition wired (cfg : NucleusConfig) : Pipeline :=
  let ctx := OCtx in
  let logger :=
    ONew NewLogger
      [OLogConfig (LogConfig cfg); OBool (Verbose cfg); OInstanceZapLogger] in
  let ts := ONew teststats_New [OCfg cfg; logger] in
  let azureClient := ONew NewAzureBlobEnv [OCfg cfg; logger] in
  let secretParser := ONew secret_New [logger] in
  let tcm := ONew NewTASConfigManager [logger] in
  let execManager :=
    ONew NewExecutionManager [secretParser; azureClient; logger] in
  let zstd := ONew zstd_New [execManager; logger] in
  {| PayloadManager := ONew NewPayloadManger [azureClient; logger; OCfg cfg];
     TASConfigManager := tcm;
     GitManager := ONew NewGitManager [logger];
     DiffManager := ONew NewDiffManager [OCfg cfg; logger];
     TestDiscoveryService := ONew NewTestDiscoveryService [execManager; logger];
     TestBlockListService := ONew NewTestBlockListService [OCfg cfg; logger];
     TestExecutionService :=
       ONew NewTestExecutionService [execManager; azureClient; ts; logger];
     ExecutionManager := execManager;
     ParserService := ONew parser_New [ctx; tcm; logger];
     CoverageService :=
       ONew coverage_New [execManager; azureClient; zstd; OCfg cfg; logger];
     TestStats := ts;
     Task := ONew task_New [ctx; OCfg cfg; logger];
     CacheStore := ONew cachemanager_New [zstd; azureClient; logger];
     SecretParser := secretParser |}.

(** The constructors of the fourteen plugins. *)
Definition plugin_ctors : list Ctor :=
  [NewPayloadManger; NewTASConfigManager; NewGitManager; NewDiffManager;
   NewTestDiscoveryService; NewTestBlockListService;
   NewTestExecutionService; NewExecutionManager; parser_New; coverage_New;
   teststats_New; task_New; cachemanager_New; secret_New].

(** Every plugin's constructor has been called. *)
Definition plugins_constructed (w : World) : Prop :=
  Forall (fun c => exists args, In (ECall c args) (events w)) plugin_ctors.

(** A value one of the plugins' constructors returned to a call that is
    among the events of [w]. *)
Definition constructed_in (w : World) (o : Obj) : Prop :=
  exists c args,
    o = ONew c args /\ In c plugin_ctors /\ In (ECall c args) (events w).

(** The world in which a run of [run] stands. *)
Definition final_world (r : World * Stop + Launch * State) : World :=
  match r with
  | inl (w, _) => w
  | inr (_, s) => world s
  end.

(** The states the tail reaches from the world [w], with the schedule
    that leads there. *)
Inductive reaches (w : World) : list Label -> State -> Prop :=
| reaches_init : reaches w [] (init w)
| reaches_step tr s l s' :
    reaches w tr s -> step l s = Some s' -> reaches w (tr ++ [l]) s'.

(** wg.Add(1) calls the main goroutine has made. *)
Definition adds (pc : MainPc) : Z :=
  match pc with
  | MWgAdd1 => 0
  | MGoPipeline | MWgAdd2 => 1
  | _ => 2
  end.

(** wg.Done() calls a task goroutine has made. *)
Definition dones (pc : TaskPc) : Z :=
  match pc with
  | TDeferCancel _ | TEnd _ => 1
  | _ => 0
  end.

Definition started (pc : TaskPc) : bool :=
  match pc with TNotStarted => false | _ => true end.

Definition ended (pc : TaskPc) : bool :=
  match pc with TEnd _ => true | _ => false end.

(** The task's body has come back. *)
Definition body_returned (pc : TaskPc) : bool :=
  match pc with TNotStarted | TBody => false | _ => true end.

Definition past_go_pipeline (pc : MainPc) : bool :=
  match pc with MWgAdd1 | MGoPipeline => false | _ => true end.

Definition past_go_server (pc : MainPc) : bool :=
  match pc with
  | MWgAdd1 | MGoPipeline | MWgAdd2 | MGoServer => false
  | _ => true
  end.

Definition past_notify (pc : MainPc) : bool :=
  match pc with
  | MWgAdd1 | MGoPipeline | MWgAdd2 | MGoServer | MNotify => false
  | _ => true
  end.

Definition past_go_waiter (pc : MainPc) : bool :=
  match pc with
  | MWgAdd1 | MGoPipeline | MWgAdd2 | MGoServer | MNotify | MGoWaiter => false
  | _ => true
  end.

(** The main goroutine is between the receive from c and the return. *)
Definition on_interrupt_path (pc : MainPc) : bool :=
  match pc with
  | MCancel | MGraceEnter | MGrace | MReturn => true
  | _ => false
  end.

(** What holds in every state the tail reaches. *)
Record Inv (s : State) : Prop := mkInv {
  inv_wg : wg s = adds (main s) - dones (pipeline s) - dones (server s);
  inv_pipeline : started (pipeline s) = past_go_pipeline (main s);
  inv_server : started (server s) = past_go_server (main s);
  inv_waiter :
    match waiter s with
    | WNotStarted => past_go_waiter (main s) = false /\ done_closed s = false
    | WWait => past_go_waiter (main s) = true /\ done_closed s = false
    | WClose =>
        past_go_waiter (main s) = true /\ done_closed s = false /\ wg s = 0
    | WEnd =>
        past_go_waiter (main s) = true /\ done_closed s = true /\ wg s = 0
    end;
  inv_notified : notified s = past_notify (main s);
  inv_proc :
    match proc s with
    | None => main s <> MEnd
    | Some (Exited code) => code = 0 /\ main s = MEnd
    | Some Returned => main s = MEnd /\ cancelled s = true
    | Some Panicked => False
    end;
  inv_cancelled_main :
    match main s with
    | MGraceEnter | MGrace | MReturn => cancelled s = true
    | _ => True
    end;
  inv_cancelled_pipeline : ended (pipeline s) = true -> cancelled s = true;
  inv_cancelled_server : ended (server s) = true -> cancelled s = true;
  inv_clock : 0 <= clock s;
  inv_timer :
    match timer s with
    | Some deadline => 0 <= deadline - gracefulTimeout <= clock s
    | None => main s <> MGrace /\ main s <> MReturn
    end
}.

(** The two entries the select of line 206 can log. *)
Definition timeout_logged : Event :=
  ELog Error "Graceful timeout exceeded. Brutally killing the application" [].

Definition within_timeout_logged : Event :=
  ELog Debug "Go routines exited within timeout" [].

(** The schedule with the tasks' results forgotten. *)
Definition forget_result (l : Label) : Label :=
  match l with
  | TaskReturn t _ => TaskReturn t Succeeded
  | _ => l
  end.

Definition forget_pc (pc : TaskPc) : TaskPc :=
  match pc with
  | TDeferWgDone _ => TDeferWgDone Succeeded
  | TDeferCancel _ => TDeferCancel Succeeded
  | TEnd _ => TEnd Succeeded
  | _ => pc
  end.

(** The state with the tasks' results forgotten. *)
Definition forget (s : State) : State :=
  set_pipeline (forget_pc (pipeline s)) (set_server (forget_pc (server s)) s).

(** The steps a task goroutine still has after its body came back. *)
Definition finish_task (t : TaskId) (s : State) : list Label :=
  match task_pc t s with
  | TDeferWgDone _ => [TaskWgDone t; TaskCancel t]
  | TDeferCancel _ => [TaskCancel t]
  | _ => []
  end.

(** The steps the main goroutine has before it reaches line 199. *)
Definition finish_launch (s : State) : list Label :=
  match main s with
  | MNotify => [Notify; GoWaiter]
  | MGoWaiter => [GoWaiter]
  | _ => []
  end.

(** The steps the waiting goroutine has once the counter is zero. *)
Definition finish_waiter (s : State) : list Label :=
  match waiter s with
  | WNotStarted | WWait => [WaitReturn; CloseDone]
  | WClose => [CloseDone]
  | WEnd => []
  end.

(** A schedule that lets every goroutine run on, with no interrupt and
    no time passing, once both bodies have come back. *)
Definition drain (s : State) : list Label :=
  finish_task PipelineTask s ++ finish_task ServerTask s ++
  finish_launch s ++ finish_waiter s ++ [SelectDone].

(** A schedule on which the interrupt comes while both tasks run and the
    grace period passes before either finishes. *)
Definition grace_exceeded_schedule : list Label :=
  [WgAdd1; GoPipeline; WgAdd2; GoServer; Notify; GoWaiter;
   Interrupt; SelectSig; MainCancel; EnterGrace;
   Tick (5000 * Millisecond); GraceTimeout; RunReturn].

(** A schedule on which pl.Start fails, the server then stops, and no
    interrupt comes. *)
Definition start_fails_schedule : list Label :=
  [WgAdd1; GoPipeline; WgAdd2; GoServer; Notify; GoWaiter;
   TaskReturn PipelineTask Failed; TaskWgDone PipelineTask;
   TaskCancel PipelineTask;
   TaskReturn ServerTask Succeeded; TaskWgDone ServerTask;
   TaskCancel ServerTask;
   WaitReturn; CloseDone; SelectDone].

(** The state a schedule leads to from the empty world (the first state
    when the schedule cannot run). *)
Definition empty_world : World := mkWorld [] "".

Definition state_after (tr : list Label) : State :=
  match exec tr (init empty_world) with
  | Some s => s
  | None => init empty_world
  end.

(** A schedule on which the interrupt comes while both tasks run, and
    both finish before the grace period is over. *)
Definition within_grace_schedule : list Label :=
  [WgAdd1; GoPipeline; WgAdd2; GoServer; Notify; GoWaiter;
   Interrupt; SelectSig; MainCancel; EnterGrace;
   TaskReturn ServerTask Succeeded; TaskWgDone ServerTask;
   TaskCancel ServerTask;
   Tick (20 * Millisecond);
   TaskReturn PipelineTask Succeeded; TaskWgDone PipelineTask;
   TaskCancel PipelineTask;
   WaitReturn; CloseDone; GraceDone; RunReturn].

(** Stand-ins for Go's library on plain inputs, to run the model: the
    trimming of blanks at both ends and the joining of two clean path
    elements. *)
Fixpoint trim_left (s : string) : string :=
  match s with
  | String " "%char s1 => trim_left s1
  | _ => s
  end.

Fixpoint rev_string (s acc : string) : string :=
  match s with
  | EmptyString => acc
  | String c s' => rev_string s' (String c acc)
  end.

Definition sample_externals : Externals :=
  mkExternals
    (fun s => rev_string (trim_left (rev_string (trim_left s) "")) "")
    (fun a b => (a ++ "/" ++ b)%string)
    "neuron.example.org"
    "v0.0.0".

Definition sample_config : NucleusConfig :=
  mkNucleusConfig "/var/log/nucleus" (mkLoggingConfig "./default.log")
    false true " 10.0.0.7 ".

Definition sample_pipeline : Pipeline :=
  mkPipeline ONil ONil ONil ONil ONil ONil ONil ONil ONil ONil ONil ONil
    ONil ONil.

(** Every call succeeds. *)
Definition env_ok : Env :=
  mkEnv (inl sample_config) (fun _ => None) sample_pipeline.

(** config.LoadNucleusConfig fails. *)
Definition env_no_config : Env :=
  mkEnv (inr "open .nucleus.json: no such file") (fun _ => None)
    sample_pipeline.

(** azure.NewAzureBlobEnv fails, with LocalRunner set. *)
Definition env_no_azure : Env :=
  mkEnv (inl sample_config)
    (fun c => match c with
              | NewAzureBlobEnv => Some "missing credentials"
              | _ => None
              end)
    sample_pipeline.

(** The same with LocalRunner unset. *)
Definition remote_config : NucleusConfig :=
  mkNucleusConfig "" (mkLoggingConfig "./default.log") true false "".

Definition env_remote : Env :=
  mkEnv (inl remote_config) (fun _ => None) sample_pipeline.

Definition env_remote_no_azure : Env :=
  mkEnv (inl remote_config)
    (fun c => match c with
              | NewAzureBlobEnv => Some "missing credentials"
              | _ => None
              end)
    sample_pipeline.

(** The launch, and the launch followed by both bodies coming back. *)
Definition launch_schedule : list Label :=
  [WgAdd1; GoPipeline; WgAdd2; GoServer].

Definition bodies_back_schedule : list Label :=
  launch_schedule ++
  [TaskReturn ServerTask Failed; TaskReturn PipelineTask Succeeded].

(** ** Vocabulary of the start-up's further properties *)

(** The constructors whose error [run] checks, in the order of the
    checks, each with the stop its error leads to. *)
Definition checked_ctors : list (Ctor * Stop) :=
  [(NewLogger, OsExit 1);
   (NewPipeline, OsExit 1);
   (teststats_New, LoggerFatalf AtTestStats);
   (NewAzureBlobEnv, LoggerFatalf AtAzure);
   (NewTestBlockListService, LoggerFatalf AtBlockList);
   (task_New, LoggerFatalf AtTask);
   (zstd_New, LoggerFatalf AtZstd);
   (cachemanager_New, LoggerFatalf AtCache);
   (parser_New, LoggerFatalf AtParser);
   (coverage_New, LoggerFatalf AtCoverage)].

(** The stop of the first constructor of [l] that returns an error. *)
Fixpoint first_failure (env : Env) (l : list (Ctor * Stop)) : option Stop :=
  match l with
  | [] => None
  | (c, st) :: l' =>
      if is_err (ctor_err env c) then Some st else first_failure env l'
  end.

(** The constructors a list of events calls, in order. *)
Definition calls (l : list Event) : list Ctor :=
  flat_map (fun e => match e with ECall c _ => [c] | _ => [] end) l.

(** The order in which [run] calls the constructors. *)
Definition call_order : list Ctor :=
  [LoadNucleusConfig; NewLogger; NewPipeline; teststats_New;
   NewAzureBlobEnv; NewPayloadManger; secret_New; NewTASConfigManager;
   NewGitManager; NewDiffManager; NewExecutionManager;
   NewTestDiscoveryService; NewTestExecutionService;
   NewTestBlockListService; NewRouter; task_New; zstd_New;
   cachemanager_New; parser_New; coverage_New].

(** The configurations among the arguments of a constructor call. *)
Definition cfg_args (e : Event) : list NucleusConfig :=
  match e with
  | ECall _ args =>
      flat_map (fun o => match o with OCfg c => [c] | _ => [] end) args
  | _ => []
  end.

(** ** Vocabulary of the tail's further properties *)

(** The time that passes on a schedule. *)
Fixpoint ticks (tr : list Label) : Z :=
  match tr with
  | [] => 0
  | Tick d :: tr' => d + ticks tr'
  | _ :: tr' => ticks tr'
  end.

(** The goroutines of the tail. *)
Inductive Thread := MainThread | TaskThread (t : TaskId) | WaiterThread.

(** The goroutine a step belongs to; the interrupt and the clock belong
    to none. *)
Definition label_thread (l : Label) : option Thread :=
  match l with
  | WgAdd1 | GoPipeline | WgAdd2 | GoServer | Notify | GoWaiter
  | SelectSig | SelectDone | MainCancel | EnterGrace | GraceDone
  | GraceTimeout | RunReturn => Some MainThread
  | TaskReturn t _ | TaskWgDone t | TaskCancel t => Some (TaskThread t)
  | WaitReturn | CloseDone => Some WaiterThread
  | Interrupt | Tick _ => None
  end.

(** How far down its goroutine's text a step is; the cases of one select
    stand at the same place. *)
Definition label_pos (l : Label) : nat :=
  match l with
  | WgAdd1 => 0 | GoPipeline => 1 | WgAdd2 => 2 | GoServer => 3
  | Notify => 4 | GoWaiter => 5
  | SelectSig | SelectDone => 6
  | MainCancel => 7 | EnterGrace => 8
  | GraceDone | GraceTimeout => 9
  | RunReturn => 10
  | TaskReturn _ _ => 1 | TaskWgDone _ => 2 | TaskCancel _ => 3
  | WaitReturn => 1 | CloseDone => 2
  | Interrupt | Tick _ => 0
  end%nat.

Definition main_pos (pc : MainPc) : nat :=
  match pc with
  | MWgAdd1 => 0 | MGoPipeline => 1 | MWgAdd2 => 2 | MGoServer => 3
  | MNotify => 4 | MGoWaiter => 5 | MSelect => 6 | MCancel => 7
  | MGraceEnter => 8 | MGrace => 9 | MReturn => 10 | MEnd => 11
  end%nat.

Definition task_pos (pc : TaskPc) : nat :=
  match pc with
  | TNotStarted => 0 | TBody => 1 | TDeferWgDone _ => 2
  | TDeferCancel _ => 3 | TEnd _ => 4
  end%nat.

Definition waiter_pos (pc : WaiterPc) : nat :=
  match pc with
  | WNotStarted => 0 | WWait => 1 | WClose => 2 | WEnd => 3
  end%nat.

(** How far a goroutine has come in a state. *)
Definition thread_pos (th : Thread) (s : State) : nat :=
  match th with
  | MainThread => main_pos (main s)
  | TaskThread t => task_pos (task_pc t s)
  | WaiterThread => waiter_pos (waiter s)
  end.

(** The main goroutine's way out after an interrupt, with the tasks
    never moving: it goes on to the select of line 206, lets the grace
    period pass, takes the timer case and returns. *)
Definition force_out (s : State) : list Label :=
  let wait := [Tick gracefulTimeout; GraceTimeout; RunReturn] in
  match main s with
  | MSelect =>
      if sig_pending s then SelectSig :: MainCancel :: EnterGrace :: wait
      else []
  | MCancel => MainCancel :: EnterGrace :: wait
  | MGraceEnter => EnterGrace :: wait
  | MGrace =>
      match timer s with
      | Some deadline =>
          [Tick (Z.max 0 (deadline - clock s)); GraceTimeout; RunReturn]
      | None => []
      end
  | MReturn => [RunReturn]
  | _ => []
  end.

(** A schedule that stops with an interrupt in c and both tasks running. *)
Definition interrupted_schedule : list Label :=
  [WgAdd1; GoPipeline; WgAdd2; GoServer; Notify; GoWaiter; Interrupt].

(** * Properties of the start-up *)

Ltac in_list := cbn; repeat (first [left; reflexivity | right]).

Section StartupFacts.

Variable X : Externals.
Variable env : Env.

Ltac unfold_startup :=
  cbv [run startup load_and_patch make_logger resolve_host call1 call2
       log_Fatalf logger_Fatalf os_Exit logf when stop emit bind ret
       get_NeuronHost SetNeuronHost is_err err_Error].

(** C7: when config.LoadNucleusConfig fails, [run] prints the error and
    calls os.Exit(1), a non-zero status, under every schedule: the only
    events are the call that loads the configuration and the Printf, so no
    pipeline was constructed, no logger made and no goroutine started. *)
Theorem config_failure_exits_at_once (w0 : World) (err : string)
    (tr : list Label) :
  load_config env = inr err ->
  run X env w0 tr =
    Some (inl (mkWorld (events w0 ++
                          [ECall LoadNucleusConfig [OCmd];
                           EPrintf ("[Error] Failed to load config: " ++ err)%string])
                       (NeuronHost w0),
               OsExit 1))
  /\ 1 <> 0.
Proof.
  intros Hcfg. split; [| lia].
  unfold_startup. rewrite Hcfg. cbn. rewrite <- app_assoc. reflexivity.
Qed.

Ltac case_ctor c fin :=
  destruct (ctor_err env c) eqn:?; cbn; [solve [fin] |].

(** Every path of the start-up, one failing constructor after the other;
    [fin] closes each path. *)
Ltac paths_after_logger fin :=
  case_ctor NewPipeline fin;
  case_ctor teststats_New fin; case_ctor NewAzureBlobEnv fin;
  case_ctor NewTestBlockListService fin; case_ctor task_New fin;
  case_ctor zstd_New fin; case_ctor cachemanager_New fin;
  case_ctor parser_New fin; case_ctor coverage_New fin; fin.

Ltac startup_paths fin := case_ctor NewLogger fin; paths_after_logger fin.

Ltac events_prefix :=
  repeat rewrite <- app_assoc; cbn; eexists; reflexivity.

(** C10: with a non-empty LogFile the logger is constructed from a log
    configuration whose FileLocation is filepath.Join(LogFile,
    "nucleus.log"); with an empty LogFile it is constructed from the
    configuration's LogConfig as loaded. *)
Theorem log_location_patched (w0 : World) (cfg : NucleusConfig) :
  load_config env = inl cfg ->
  (LogFile cfg <> "" ->
   exists rest,
     events (fst (startup X env w0)) =
       (events w0 ++
        [ECall LoadNucleusConfig [OCmd];
         ECall NewLogger
           [OLogConfig
              (mkLoggingConfig (filepath_Join X (LogFile cfg) "nucleus.log"));
            OBool (Verbose cfg); OInstanceZapLogger]] ++ rest)) /\
  (LogFile cfg = "" ->
   exists rest,
     events (fst (startup X env w0)) =
       (events w0 ++
        [ECall LoadNucleusConfig [OCmd];
         ECall NewLogger
           [OLogConfig (LogConfig cfg); OBool (Verbose cfg);
            OInstanceZapLogger]] ++ rest)).
Proof.
  intros Hcfg. destruct cfg as [lf lc vb lr sh]. cbn.
  split; intros Hlf.
  - apply String.eqb_neq in Hlf.
    unfold_startup. rewrite Hcfg. cbn. rewrite Hlf. cbn.
    destruct lr; cbn; startup_paths events_prefix.
  - apply String.eqb_eq in Hlf.
    unfold_startup. rewrite Hcfg. cbn. rewrite Hlf. cbn.
    destruct lr; cbn; startup_paths events_prefix.
Qed.

Lemma host_sets_app (l1 l2 : list Event) :
  host_sets (l1 ++ l2) = (host_sets l1 + host_sets l2)%nat.
Proof. unfold host_sets. now rewrite filter_app, length_app. Qed.

Ltac count_sets :=
  unfold host_sets; cbn; repeat rewrite filter_app; repeat rewrite length_app;
  cbn; lia.

(** Once the logger exists the start-up sets the host exactly once, to the
    value the configuration decides, whatever happens afterwards. *)
Lemma startup_host (w0 : World) (cfg : NucleusConfig) :
  load_config env = inl cfg ->
  ctor_err env NewLogger = None ->
  NeuronHost (fst (startup X env w0)) =
    (if LocalRunner cfg then TrimSpace X (SynapseHost cfg)
     else NeuronRemoteHost X) /\
  host_sets (events (fst (startup X env w0))) =
    (host_sets (events w0) + 1)%nat.
Proof.
  intros Hcfg Hlog. destruct cfg as [lf lc vb lr sh]. cbn.
  unfold_startup. rewrite Hcfg, Hlog. cbn.
  destruct (String.eqb lf ""); cbn; destruct lr; cbn;
    paths_after_logger ltac:(split; [reflexivity | count_sets]).
Qed.

Lemma startup_wired_paths (w0 : World) :
  match snd (startup X env w0) with
  | inl la => la_pl la = wired (la_cfg la)
  | inr _ => True
  end.
Proof.
  unfold_startup. destruct (load_config env) as [cfg | e]; cbn;
    [| exact I].
  destruct cfg as [lf lc vb lr sh]. cbn.
  destruct (String.eqb lf ""); cbn; destruct lr; cbn;
    startup_paths ltac:(first [exact I | reflexivity]).
Qed.

Lemma startup_wired (w0 w : World) (la : Launch) :
  startup X env w0 = (w, inl la) -> la_pl la = wired (la_cfg la).
Proof.
  intros H. pose proof (startup_wired_paths w0) as P.
  rewrite H in P. exact P.
Qed.

Lemma startup_calls_paths (w0 : World) :
  match startup X env w0 with
  | (w, inl _) => plugins_constructed w
  | (_, inr _) => True
  end.
Proof.
  unfold_startup. destruct (load_config env) as [cfg | e]; cbn;
    [| exact I].
  destruct cfg as [lf lc vb lr sh]. cbn.
  destruct (String.eqb lf ""); cbn; destruct lr; cbn;
    startup_paths
      ltac:(first [ exact I
                  | repeat constructor; eexists;
                    repeat rewrite <- app_assoc;
                    apply in_or_app; right; in_list ]).
Qed.

Lemma startup_calls (w0 w : World) (la : Launch) :
  startup X env w0 = (w, inl la) -> plugins_constructed w.
Proof.
  intros H. pose proof (startup_calls_paths w0) as P.
  rewrite H in P. exact P.
Qed.

(** On reaching the launch every plugin field holds the value a
    constructor returned to a call that is among the events. *)
Lemma startup_fields_paths (w0 : World) :
  match startup X env w0 with
  | (w, inl la) => forall f, constructed_in w (field f (la_pl la))
  | (_, inr _) => True
  end.
Proof.
  unfold_startup. destruct (load_config env) as [cfg | e]; cbn;
    [| exact I].
  destruct cfg as [lf lc vb lr sh]. cbn.
  destruct (String.eqb lf ""); cbn; destruct lr; cbn;
    startup_paths
      ltac:(first [ exact I
                  | intros f; destruct f; cbn; eexists; eexists;
                    (split; [reflexivity |]); (split; [in_list |]);
                    repeat rewrite <- app_assoc;
                    apply in_or_app; right; in_list ]).
Qed.

Lemma startup_fields (w0 w : World) (la : Launch) :
  startup X env w0 = (w, inl la) ->
  forall f, constructed_in w (field f (la_pl la)).
Proof.
  intros H. pose proof (startup_fields_paths w0) as P.
  rewrite H in P. exact P.
Qed.

(** C9: when azure.NewAzureBlobEnv returns an error (everything before it
    having succeeded), the start-up ends in the Fatalf of line 107 with
    LocalRunner set as well as unset, and no answer of the environment
    makes it end in the Fatalf of line 110. *)
Theorem azure_failure_is_fatal (w0 : World) :
  (forall cfg e,
     load_config env = inl cfg ->
     ctor_err env NewLogger = None ->
     ctor_err env NewPipeline = None ->
     ctor_err env teststats_New = None ->
     ctor_err env NewAzureBlobEnv = Some e ->
     snd (startup X env w0) = inr (LoggerFatalf AtAzure) /\
     last (events (fst (startup X env w0))) (EPrintf "") =
       ELog Fatal "failed to initialize azure blob: %v" [e]) /\
  snd (startup X env w0) <> inr (LoggerFatalf AtAzureNotLocal).
Proof.
  split.
  - intros cfg e Hcfg H1 H2 H3 H4. destruct cfg as [lf lc vb lr sh].
    unfold_startup. rewrite Hcfg, H1, H2, H3, H4. cbn.
    destruct (String.eqb lf ""); cbn; destruct lr; cbn;
      (split; [reflexivity | apply last_last]).
  - unfold_startup. destruct (load_config env) as [cfg | e]; cbn;
      [| discriminate].
    destruct cfg as [lf lc vb lr sh]. cbn.
    destruct (String.eqb lf ""); cbn; destruct lr; cbn;
      startup_paths ltac:(intros H; inversion H).
Qed.

(** ** Further properties of the start-up *)

Ltac use_eqs :=
  repeat match goal with
         | H : ctor_err env _ = _ |- _ => rewrite H
         end.

(** Which way the start-up ends, path by path. *)
Lemma startup_end_paths (w0 : World) :
  match load_config env, snd (startup X env w0) with
  | inr _, r => r = inr (OsExit 1)
  | inl _, inr st => first_failure env checked_ctors = Some st
  | inl _, inl _ => first_failure env checked_ctors = None
  end.
Proof.
  unfold_startup. destruct (load_config env) as [cfg | e]; cbn;
    [| reflexivity].
  destruct cfg as [lf lc vb lr sh]. cbn.
  destruct (String.eqb lf ""); cbn; destruct lr; cbn;
    startup_paths ltac:(cbn; use_eqs; reflexivity).
Qed.

(** X1: the start-up stops at the first call, in program order, that
    returns an error, with that call's stop: os.Exit(1) for the
    configuration, the logger (through log.Fatalf) and the pipeline, the
    Fatalf of its place for every other constructor; errors of later
    constructors play no part. *)
Theorem startup_stops_at_first_failure (w0 : World) (st : Stop) :
  snd (startup X env w0) = inr st <->
  match load_config env with
  | inr _ => st = OsExit 1
  | inl _ => first_failure env checked_ctors = Some st
  end.
Proof.
  pose proof (startup_end_paths w0) as P.
  destruct (load_config env) as [cfg | e].
  - destruct (snd (startup X env w0)) as [la | st'].
    + rewrite P. split; discriminate.
    + rewrite P. split; intros H; injection H as ->; reflexivity.
  - rewrite P. split; [intros H; now injection H | now intros ->].
Qed.

(** X2: the start-up reaches the launch of the goroutines exactly when
    the configuration loads and none of the ten checked constructors
    returns an error. *)
Theorem startup_launches_iff (w0 : World) :
  (exists la, snd (startup X env w0) = inl la) <->
  (exists cfg, load_config env = inl cfg) /\
  Forall (fun c => ctor_err env c = None) (map fst checked_ctors).
Proof.
  pose proof (startup_end_paths w0) as P.
  assert (F : first_failure env checked_ctors = None <->
              Forall (fun c => ctor_err env c = None) (map fst checked_ctors)).
  { generalize checked_ctors. induction l as [| [c st] l IH]; cbn.
    - split; [constructor | reflexivity].
    - destruct (ctor_err env c) as [e |] eqn:E; cbn.
      + split; [discriminate |]. intros H. inversion H. congruence.
      + rewrite IH. split; [now constructor |]. intros H. now inversion H. }
  destruct (load_config env) as [cfg | e].
  - destruct (snd (startup X env w0)) as [la | st].
    + rewrite <- F. split; [intros _; split; eauto | eauto].
    + rewrite <- F, P. split; [intros [la H]; discriminate H |].
      intros [_ H]; discriminate H.
  - rewrite P. split; [intros [la H]; discriminate H |].
    intros [[cfg H] _]; discriminate H.
Qed.

Ltac added_events :=
  eexists; split; [repeat rewrite <- app_assoc; cbn; reflexivity |].

Ltac split_calls H :=
  match type of H with
  | _ = ?pre ++ _ :: _ =>
      destruct pre; cbn in H;
      [ first [ discriminate H
              | let Hc := fresh "H" in
                let Hp := fresh "H" in
                injection H as Hc Hp; subst ]
      | first [ discriminate H
              | let H' := fresh "H" in
                injection H as _ H'; split_calls H' ] ]
  end.

(** X3: whatever the constructors answer, the calls the start-up makes
    are an initial part of one fixed order, so no constructor is called
    twice; when the start-up reaches the launch, all twenty calls have
    been made; when the configuration does not load, the load is the
    only call; a call to a checked constructor that returns an error is
    the last call made; and the calls stop short of the twenty only
    there: the configuration did not load, or the last constructor
    called is a checked one that returned an error. *)
Theorem constructors_called_in_order (w0 : World) :
  exists added,
    events (fst (startup X env w0)) = events w0 ++ added /\
    (exists rest, call_order = calls added ++ rest) /\
    NoDup (calls added) /\
    (forall la, snd (startup X env w0) = inl la -> calls added = call_order) /\
    (forall e, load_config env = inr e -> calls added = [LoadNucleusConfig]) /\
    (forall pre c post,
       calls added = pre ++ c :: post ->
       In c (map fst checked_ctors) ->
       ctor_err env c <> None ->
       post = []) /\
    (calls added <> call_order ->
     (exists e, load_config env = inr e) \/
     (In (last (calls added) LoadNucleusConfig) (map fst checked_ctors) /\
      ctor_err env (last (calls added) LoadNucleusConfig) <> None)).
Proof.
  unfold_startup. destruct (load_config env) as [cfg | e]; cbn.
  - destruct cfg as [lf lc vb lr sh]. cbn.
    destruct (String.eqb lf ""); cbn; destruct lr; cbn;
      startup_paths
        ltac:(added_events;
              split; [cbn; eexists; reflexivity |];
              split; [cbn; repeat constructor; cbn; intuition discriminate |];
              split; [intros la H; first [discriminate H | reflexivity] |];
              split; [intros e H; discriminate H |];
              split;
              [ cbn; intros pre c post H; split_calls H; intros I N;
                first [ reflexivity
                      | exfalso; apply N; assumption
                      | exfalso; cbn in I;
                        repeat (destruct I as [I | I]; [discriminate I |]);
                        exact I ]
              | cbn; intros H;
                first [ exfalso; apply H; reflexivity
                      | right; split; [in_list | congruence] ] ]).
  - added_events.
    split; [cbn; eexists; reflexivity |].
    split; [cbn; repeat constructor; cbn; intuition discriminate |].
    split; [intros la H; discriminate H |].
    split; [intros e' _; reflexivity |].
    split.
    + cbn. intros pre c post H. split_calls H. intros I N. reflexivity.
    + intros _. left. exists e. reflexivity.
Qed.

(** X4: when the configuration does not load, or the logger cannot be
    made, the start-up ends in os.Exit(1) with global.NeuronHost as it
    was and global.SetNeuronHost never called. *)
Theorem early_failure_keeps_host (w0 : World) :
  (exists e, load_config env = inr e) \/
  (exists e, ctor_err env NewLogger = Some e) ->
  snd (startup X env w0) = inr (OsExit 1) /\
  NeuronHost (fst (startup X env w0)) = NeuronHost w0 /\
  host_sets (events (fst (startup X env w0))) = host_sets (events w0).
Proof.
  intros H. unfold_startup.
  destruct (load_config env) as [cfg | e]; cbn.
  - destruct H as [[e H] | [e H]]; [discriminate H |]. rewrite H.
    destruct cfg as [lf lc vb lr sh]. cbn.
    destruct (String.eqb lf ""); cbn;
      (split; [reflexivity |]; split; [reflexivity | count_sets]).
  - split; [reflexivity |]. split; [reflexivity | count_sets].
Qed.

(** X5: the configuration every constructor receives is one and the
    same: the loaded one with, at most, the file location of its log
    configuration replaced; LogFile, Verbose, LocalRunner and SynapseHost
    are as loaded. *)
Theorem one_configuration_for_all (w0 : World) (cfg : NucleusConfig) :
  load_config env = inl cfg ->
  exists cfg' added,
    events (fst (startup X env w0)) = events w0 ++ added /\
    LogFile cfg' = LogFile cfg /\
    Verbose cfg' = Verbose cfg /\
    LocalRunner cfg' = LocalRunner cfg /\
    SynapseHost cfg' = SynapseHost cfg /\
    Forall (fun e => Forall (eq cfg') (cfg_args e)) added /\
    (forall la, snd (startup X env w0) = inl la -> la_cfg la = cfg').
Proof.
  intros Hcfg. unfold_startup. rewrite Hcfg. cbn.
  destruct cfg as [lf lc vb lr sh]. cbn.
  exists (mkNucleusConfig lf
            (if String.eqb lf "" then lc
             else mkLoggingConfig (filepath_Join X lf "nucleus.log"))
            vb lr sh).
  destruct (String.eqb lf ""); cbn; destruct lr; cbn;
    startup_paths
      ltac:(added_events;
            do 4 (split; [reflexivity |]);
            split;
            [ repeat constructor
            | intros la H; first [discriminate H | now injection H as <-] ]).
Qed.

(** X6: what the launched parts share. The router of the API server is
    built on the pipeline's TestStats and on the logger; the test
    discovery and test execution services are built on the pipeline's
    ExecutionManager, which itself is built on the pipeline's
    SecretParser; the parser service is built on the pipeline's
    TASConfigManager and, like the task, on the context that [run]
    cancels. *)
Theorem launched_parts_share (w0 w : World) (la : Launch) :
  startup X env w0 = (w, inl la) ->
  let pl := la_pl la in
  let logger := la_logger la in
  let azureClient := ONew NewAzureBlobEnv [OCfg (la_cfg la); logger] in
  la_router la = ONew NewRouter [logger; TestStats pl] /\
  ExecutionManager pl =
    ONew NewExecutionManager [SecretParser pl; azureClient; logger] /\
  TestDiscoveryService pl =
    ONew NewTestDiscoveryService [ExecutionManager pl; logger] /\
  TestExecutionService pl =
    ONew NewTestExecutionService
      [ExecutionManager pl; azureClient; TestStats pl; logger] /\
  ParserService pl = ONew parser_New [OCtx; TASConfigManager pl; logger] /\
  Task pl = ONew task_New [OCtx; OCfg (la_cfg la); logger].
Proof.
  intros H.
  assert (P : match startup X env w0 with
              | (_, inl la) =>
                  let pl := la_pl la in
                  let logger := la_logger la in
                  let azureClient :=
                    ONew NewAzureBlobEnv [OCfg (la_cfg la); logger] in
                  la_router la = ONew NewRouter [logger; TestStats pl] /\
                  ExecutionManager pl =
                    ONew NewExecutionManager
                      [SecretParser pl; azureClient; logger] /\
                  TestDiscoveryService pl =
                    ONew NewTestDiscoveryService [ExecutionManager pl; logger] /\
                  TestExecutionService pl =
                    ONew NewTestExecutionService
                      [ExecutionManager pl; azureClient; TestStats pl; logger] /\
                  ParserService pl =
                    ONew parser_New [OCtx; TASConfigManager pl; logger] /\
                  Task pl = ONew task_New [OCtx; OCfg (la_cfg la); logger]
              | (_, inr _) => True
              end).
  { unfold_startup. destruct (load_config env) as [cfg | e]; cbn;
      [| exact I].
    destruct cfg as [lf lc vb lr sh]. cbn.
    destruct (String.eqb lf ""); cbn; destruct lr; cbn;
      startup_paths ltac:(first [exact I | repeat split]). }
  rewrite H in P. exact P.
Qed.

End StartupFacts.

(** * Properties of the tail *)

Lemma exec_app (tr1 tr2 : list Label) (s : State) :
  exec (tr1 ++ tr2) s =
    match exec tr1 s with Some s' => exec tr2 s' | None => None end.
Proof.
  revert s. induction tr1 as [| l tr1 IH]; intros s; cbn; [reflexivity |].
  destruct (step l s); [apply IH | reflexivity].
Qed.

Lemma exec_snoc (tr : list Label) (l : Label) (s : State) :
  exec (tr ++ [l]) s =
    match exec tr s with Some s' => step l s' | None => None end.
Proof.
  rewrite exec_app. destruct (exec tr s) as [s' |]; [| reflexivity].
  cbn. destruct (step l s'); reflexivity.
Qed.

Lemma exec_reaches (w : World) (tr : list Label) (s : State) :
  exec tr (init w) = Some s -> reaches w tr s.
Proof.
  revert s. induction tr as [| l tr IH] using rev_ind; intros s H.
  - cbn in H. injection H as <-. constructor.
  - rewrite exec_snoc in H. destruct (exec tr (init w)) as [s1 |] eqn:E;
      [| discriminate].
    econstructor; [apply IH; reflexivity | exact H].
Qed.

Lemma reaches_exec (w : World) (tr : list Label) (s : State) :
  reaches w tr s -> exec tr (init w) = Some s.
Proof.
  induction 1 as [| tr s l s' _ IH H]; [reflexivity |].
  rewrite exec_snoc, IH. exact H.
Qed.

Lemma init_Inv (w : World) : Inv (init w).
Proof.
  constructor; cbn; easy.
Qed.

Ltac zcbn :=
  cbn -[Z.add Z.sub Z.opp Z.mul Z.leb Z.ltb Z.eqb gracefulTimeout] in *.

Ltac close_field :=
  first
    [ assumption
    | easy
    | lia
    | congruence
    | repeat split; first [assumption | easy | lia | congruence] ].

Ltac inv_field p sv wt m tm :=
  unfold wg_Done; zcbn;
  try match goal with
      | |- context [?a <? ?b] => destruct (Z.ltb_spec a b); zcbn
      end;
  repeat match goal with
         | H : _ /\ _ |- _ => destruct H
         end;
  first
    [ close_field
    | destruct tm; zcbn; close_field
    | destruct wt; zcbn; close_field
    | destruct p; zcbn; close_field
    | destruct sv; zcbn; close_field
    | destruct p, sv; zcbn; close_field
    | destruct m, p, sv; zcbn; close_field
    | destruct m, p, sv, wt; zcbn; close_field ].

Ltac step_cases H :=
  repeat match type of H with
         | match ?x with _ => _ end = Some _ =>
             destruct x eqn:?; try discriminate H
         | (if ?b then _ else _) = Some _ =>
             destruct b eqn:?; try discriminate H
         end.

Lemma step_Inv (l : Label) (s s' : State) :
  Inv s -> step l s = Some s' -> Inv s'.
Proof.
  intros I H. unfold step in H.
  destruct s as [w c g p sv wt dc nt sp m ck tm pr].
  destruct I as [Iwg Ip Isv Iwt Int Ipr Icm Icp Ics Ick Itm].
  zcbn. destruct pr as [o |]; [discriminate |].
  destruct l as [| | | | | | | | | | | | | t r | t | t | | | | d];
    try destruct t; zcbn; step_cases H; injection H as <-;
    constructor; try solve [inv_field p sv wt m tm].
Qed.

Lemma reaches_Inv (w : World) (tr : list Label) (s : State) :
  reaches w tr s -> Inv s.
Proof.
  induction 1 as [| tr s l s' _ IH H]; [apply init_Inv |].
  exact (step_Inv l s s' IH H).
Qed.

(** Induction over the reached states, with the invariant at hand. *)
Lemma reaches_induction (w : World) (P : list Label -> State -> Prop) :
  P [] (init w) ->
  (forall tr s l s',
     reaches w tr s -> Inv s -> P tr s -> step l s = Some s' ->
     P (tr ++ [l]) s') ->
  forall tr s, reaches w tr s -> P tr s.
Proof.
  intros Hinit Hstep. induction 1 as [| tr s l s' R IH H]; [exact Hinit |].
  exact (Hstep tr s l s' R (reaches_Inv w tr s R) IH H).
Qed.

Ltac by_step s l H :=
  unfold step in H;
  destruct s as [w_ c g p sv wt dc nt sp m ck tm pr];
  zcbn; destruct pr as [o |]; [discriminate H |];
  destruct l as [| | | | | | | | | | | | | t r | t | t | | | | d];
  try destruct t; zcbn; step_cases H; injection H as <-;
  unfold wg_Done; zcbn;
  try match goal with
      | |- context [?a <? ?b] => destruct (Z.ltb_spec a b); zcbn
      end.

Ltac snoc_in :=
  repeat match goal with
         | H : In _ (_ ++ [_]) |- _ =>
             apply in_app_iff in H; destruct H as [H | [H | H]];
             [ | try discriminate H | contradiction H ]
         | |- In _ (_ ++ [_]) => apply in_app_iff
         end.

Ltac hcbn :=
  cbn -[Z.add Z.sub Z.opp Z.mul Z.leb Z.ltb Z.eqb gracefulTimeout] in * |-.

Ltac leaf :=
  first [eassumption | discriminate | congruence | lia | reflexivity].

Ltac pick :=
  first [ leaf
        | contradiction
        | apply in_or_app; pick
        | left; pick
        | right; pick
        | split; pick
        | eexists; pick ].

Ltac trace_pick :=
  snoc_in; zcbn;
  repeat match goal with
         | H : (_ <=? _) = true |- _ => apply Z.leb_le in H
         | H : _ /\ _ |- _ => destruct H
         | H : exists _, _ |- _ => destruct H
         | H : ?A -> _, H' : ?A |- _ => specialize (H H')
         end;
  try solve [exfalso; assumption | intuition pick].

(** A signal is in c only after an interrupt came. *)
Lemma pending_after_interrupt (w : World) (tr : list Label) (s : State) :
  reaches w tr s -> sig_pending s = true -> In Interrupt tr.
Proof.
  revert tr s.
  apply (reaches_induction w
           (fun tr s => sig_pending s = true -> In Interrupt tr)).
  - discriminate.
  - intros tr s l s' _ _ IH H. by_step s l H; intros E; snoc_in;
      first [ left; apply IH; exact E
            | right; left; reflexivity
            | discriminate E ].
Qed.


(** The main goroutine is past the receive from c only when the case
    <-c was taken. *)
Lemma interrupt_path_after_sig (w : World) (tr : list Label) (s : State) :
  reaches w tr s ->
  on_interrupt_path (main s) = true \/ proc s = Some Returned ->
  In SelectSig tr.
Proof.
  revert tr s.
  apply (reaches_induction w
           (fun tr s =>
              on_interrupt_path (main s) = true \/ proc s = Some Returned ->
              In SelectSig tr)).
  - cbn. intros [E | E]; discriminate E.
  - intros tr s l s' _ _ IH H. by_step s l H; intros E; trace_pick.
Qed.

(** Once line 205 has run the context stays cancelled. *)
Lemma cancel_sticks (w : World) (tr : list Label) (s : State) :
  reaches w tr s ->
  (In MainCancel tr -> cancelled s = true) /\
  (In SelectSig tr -> main s = MCancel \/ cancelled s = true).
Proof.
  revert tr s.
  apply (reaches_induction w
           (fun tr s =>
              (In MainCancel tr -> cancelled s = true) /\
              (In SelectSig tr -> main s = MCancel \/ cancelled s = true))).
  - cbn. tauto.
  - intros tr s l s' _ I IH H. destruct I. by_step s l H; split; intros E;
      trace_pick.
Qed.

(** After the case <-time.After: the error is logged, the timer's deadline
    has passed, and the process can only end by [run] returning. *)
Lemma grace_timeout_facts (w : World) (tr : list Label) (s : State) :
  reaches w tr s ->
  In GraceTimeout tr ->
  In timeout_logged (events (world s)) /\
  (main s = MReturn \/ main s = MEnd) /\
  (exists deadline, timer s = Some deadline /\ deadline <= clock s) /\
  (forall o, proc s = Some o -> o = Returned).
Proof.
  revert tr s.
  apply (reaches_induction w
           (fun tr s =>
              In GraceTimeout tr ->
              In timeout_logged (events (world s)) /\
              (main s = MReturn \/ main s = MEnd) /\
              (exists deadline, timer s = Some deadline /\ deadline <= clock s) /\
              (forall o, proc s = Some o -> o = Returned))).
  - cbn. tauto.
  - intros tr s l s' _ I IH H. pose proof (inv_proc _ (step_Inv l s s' I H)) as P. 
    revert P. destruct I. by_step s l H; intros P E;
      trace_pick.
Qed.

(** After the case <-done of line 207. *)
Lemma grace_done_facts (w : World) (tr : list Label) (s : State) :
  reaches w tr s ->
  In GraceDone tr ->
  In within_timeout_logged (events (world s)) /\
  (main s = MReturn \/ main s = MEnd) /\
  done_closed s = true /\
  (forall o, proc s = Some o -> o = Returned).
Proof.
  revert tr s.
  apply (reaches_induction w
           (fun tr s =>
              In GraceDone tr ->
              In within_timeout_logged (events (world s)) /\
              (main s = MReturn \/ main s = MEnd) /\
              done_closed s = true /\
              (forall o, proc s = Some o -> o = Returned))).
  - cbn. tauto.
  - intros tr s l s' _ I IH H.
    pose proof (inv_proc _ (step_Inv l s s' I H)) as P.
    revert P. destruct I. by_step s l H; intros P E; trace_pick.
Qed.

Lemma split_snoc {A} (x l : A) (tr : list A) (P : list A -> Prop) :
  (exists a b, tr = a ++ x :: b /\ P a) ->
  exists a b, tr ++ [l] = a ++ x :: b /\ P a.
Proof.
  intros (a & b & -> & Pa). exists a, (b ++ [l]). split; [| exact Pa].
  now rewrite <- app_assoc.
Qed.

Lemma split_last {A} (x : A) (tr : list A) (P : list A -> Prop) :
  P tr -> exists a b, tr ++ [x] = a ++ x :: b /\ P a.
Proof. intros Pa. exists tr, []. now split. Qed.

(** Where the main goroutine stands tells what it has done: at the
    select of line 206 it has called cancel(), and while it is blocked
    there it has armed the timer after that call. *)
Lemma main_pc_history (w : World) (tr : list Label) (s : State) :
  reaches w tr s ->
  (main s = MGraceEnter -> In MainCancel tr) /\
  (main s = MGrace ->
   exists a b, tr = a ++ EnterGrace :: b /\ In MainCancel a).
Proof.
  revert tr s.
  apply (reaches_induction w
           (fun tr s =>
              (main s = MGraceEnter -> In MainCancel tr) /\
              (main s = MGrace ->
               exists a b, tr = a ++ EnterGrace :: b /\ In MainCancel a))).
  - cbn. split; discriminate.
  - intros tr s l s' _ _ [IH1 IH2] H.
    by_step s l H;
      (split; intros E; try discriminate E;
       solve [ apply in_or_app; left; apply IH1; first [exact E | reflexivity]
             | apply in_or_app; right; left; reflexivity
             | apply split_snoc, IH2; first [exact E | reflexivity]
             | apply (split_last EnterGrace tr (In MainCancel)), IH1;
               reflexivity ]).
Qed.

(** The tail never calls global.SetNeuronHost. *)
Lemma step_world (l : Label) (s s' : State) :
  step l s = Some s' ->
  NeuronHost (world s') = NeuronHost (world s) /\
  host_sets (events (world s')) = host_sets (events (world s)).
Proof.
  intros H. by_step s l H; unfold host_sets; cbn;
    repeat rewrite filter_app; repeat rewrite length_app; cbn;
    split; first [reflexivity | lia].
Qed.

Lemma exec_world (tr : list Label) (s s' : State) :
  exec tr s = Some s' ->
  NeuronHost (world s') = NeuronHost (world s) /\
  host_sets (events (world s')) = host_sets (events (world s)).
Proof.
  revert s. induction tr as [| l tr IH]; intros s H; cbn in H.
  - injection H as <-. now split.
  - destruct (step l s) as [s1 |] eqn:E; [| discriminate].
    destruct (step_world l s s1 E) as [<- <-]. now apply IH.
Qed.

(** The tail only adds to the events. *)
Lemma step_events (l : Label) (s s' : State) (e : Event) :
  step l s = Some s' -> In e (events (world s)) -> In e (events (world s')).
Proof.
  intros H. by_step s l H; intros E;
    repeat (apply in_or_app; left); exact E.
Qed.

Lemma exec_events (tr : list Label) (s s' : State) (e : Event) :
  exec tr s = Some s' -> In e (events (world s)) -> In e (events (world s')).
Proof.
  revert s. induction tr as [| l tr IH]; intros s H E; cbn in H.
  - now injection H as <-.
  - destruct (step l s) as [s1 |] eqn:S; [| discriminate].
    apply (IH s1 H). exact (step_events l s s1 e S E).
Qed.

(** [run] never looks at what a task's body returned. *)
Lemma step_forget (l : Label) (s s' : State) :
  step l s = Some s' ->
  step (forget_result l) (forget s) = Some (forget s').
Proof.
  intros H. by_step s l H; unfold forget; zcbn;
    repeat match goal with
           | E : _ = _ |- _ => rewrite E; zcbn
           end;
    try reflexivity.
Qed.

Lemma forget_init (w : World) : forget (init w) = init w.
Proof. reflexivity. Qed.

Lemma exec_forget (tr : list Label) (s s' : State) :
  exec tr s = Some s' ->
  exec (map forget_result tr) (forget s) = Some (forget s').
Proof.
  revert s. induction tr as [| l tr IH]; intros s H; cbn in H |- *.
  - now injection H as <-.
  - destruct (step l s) as [s1 |] eqn:E; [| discriminate].
    rewrite (step_forget l s s1 E). now apply IH.
Qed.

Lemma drain_quiet (s : State) :
  ~ In Interrupt (drain s) /\ forall d, ~ In (Tick d) (drain s).
Proof.
  unfold drain, finish_task, finish_launch, finish_waiter.
  destruct (task_pc PipelineTask s), (task_pc ServerTask s), (main s),
    (waiter s); cbn; split; try intros d; intuition discriminate.
Qed.

(** Once both bodies are back and no interrupt was taken, letting the
    goroutines run on ends in os.Exit(0). *)
Lemma drain_exits (s : State) :
  Inv s ->
  proc s = None ->
  body_returned (pipeline s) = true ->
  body_returned (server s) = true ->
  on_interrupt_path (main s) = false ->
  exists s', exec (drain s) s = Some s' /\ proc s' = Some (Exited 0).
Proof.
  intros I Hp Bp Bs Hm.
  destruct s as [w c g p sv wt dc nt sp m ck tm pr].
  destruct I as [Iwg Ip Isv Iwt Int Ipr Icm Icp Ics Ick Itm].
  hcbn. subst pr.
  destruct p; try discriminate Bp; destruct sv; try discriminate Bs;
    destruct m; try discriminate; try congruence;
    destruct wt; hcbn;
    repeat match goal with
           | H : _ /\ _ |- _ => destruct H
           end;
    try discriminate; try lia; subst;
    (eexists; split; [vm_compute; reflexivity | reflexivity]).
Qed.

(** A task whose body comes back, however it does, runs its two deferred
    calls and leaves the context cancelled. *)
Lemma task_finish_cancels (t : TaskId) (r : Result) (s : State) :
  Inv s ->
  proc s = None ->
  task_pc t s = TBody ->
  exists s',
    exec [TaskReturn t r; TaskWgDone t; TaskCancel t] s = Some s' /\
    cancelled s' = true /\ task_pc t s' = TEnd r /\ proc s' = None.
Proof.
  intros I Hp Ht.
  destruct s as [w c g p sv wt dc nt sp m ck tm pr].
  destruct I as [Iwg Ip Isv Iwt Int Ipr Icm Icp Ics Ick Itm].
  destruct t; zcbn; subst; unfold step, wg_Done; zcbn.
  - destruct (Z.ltb_spec (adds m - 0 - dones sv - 1) 0) as [L | L].
    + exfalso. destruct m, sv; zcbn; first [discriminate | lia].
    + zcbn. eexists. repeat split.
  - destruct (Z.ltb_spec (adds m - dones p - 0 - 1) 0) as [L | L].
    + exfalso. destruct m, p; zcbn; first [discriminate | lia].
    + zcbn. eexists. repeat split.
Qed.

(** A task goroutine whose body is back runs what is left of its
    deferred calls and leaves the context cancelled. *)
Lemma finish_task_cancels (t : TaskId) (s : State) :
  Inv s ->
  proc s = None ->
  body_returned (task_pc t s) = true ->
  exists s',
    exec (finish_task t s) s = Some s' /\
    cancelled s' = true /\ ended (task_pc t s') = true.
Proof.
  intros I Hp Ht.
  destruct s as [w c g p sv wt dc nt sp m ck tm pr].
  destruct I as [Iwg Ip Isv Iwt Int Ipr Icm Icp Ics Ick Itm].
  destruct t; hcbn; subst pr; unfold finish_task, step, wg_Done; zcbn.
  - destruct p; try discriminate Ht; zcbn.
    + unfold step, wg_Done; zcbn.
      destruct (Z.ltb_spec (g - 1) 0) as [L | L].
      * exfalso. destruct m, sv; hcbn; first [discriminate | lia].
      * zcbn. eexists. repeat split.
    + eexists. repeat split.
    + eexists. split; [reflexivity |]. split; [now apply Icp | reflexivity].
  - destruct sv; try discriminate Ht; zcbn.
    + unfold step, wg_Done; zcbn.
      destruct (Z.ltb_spec (g - 1) 0) as [L | L].
      * exfalso. destruct m, p; hcbn; first [discriminate | lia].
      * zcbn. eexists. repeat split.
    + eexists. repeat split.
    + eexists. split; [reflexivity |]. split; [now apply Ics | reflexivity].
Qed.

(** The case <-c is taken only after an interrupt came. *)
Lemma sig_after_interrupt (w : World) (tr : list Label) (s : State) :
  reaches w tr s -> In SelectSig tr -> In Interrupt tr.
Proof.
  revert tr s.
  apply (reaches_induction w (fun tr _ => In SelectSig tr -> In Interrupt tr)).
  - cbn. tauto.
  - intros tr s l s' R _ IH H E. apply in_or_app.
    apply in_app_iff in E. destruct E as [E | [E | []]]; [left; now apply IH |].
    subst l. left. apply (pending_after_interrupt w tr s R).
    unfold step in H. destruct (proc s); [discriminate |].
    destruct (main s); try discriminate.
    now destruct (sig_pending s).
Qed.

(** However the tail ends, the exit status is 0. *)
Lemma exit_status_zero (s : State) (o : Outcome) :
  Inv s -> proc s = Some o -> exit_status o = 0.
Proof.
  intros I H. pose proof (inv_proc s I) as P. rewrite H in P.
  destruct o as [code | |]; cbn; [tauto | reflexivity | contradiction].
Qed.

Lemma exec_split (x z : list Label) (l : Label) (s0 s : State) :
  exec (x ++ l :: z) s0 = Some s ->
  exists s1 s2, exec x s0 = Some s1 /\ step l s1 = Some s2.
Proof.
  rewrite exec_app. destruct (exec x s0) as [s1 |]; [| discriminate].
  cbn. destruct (step l s1) as [s2 |] eqn:E; [| discriminate].
  intros _. now exists s1, s2.
Qed.

(** The process lives as long as the main goroutine has not ended. *)
Lemma alive_of_main (s : State) :
  Inv s -> main s <> MEnd -> proc s = None.
Proof.
  intros I Hm. pose proof (inv_proc s I) as P.
  destruct (proc s) as [[code | |] |]; tauto.
Qed.

(** done is closed only after both tasks have run wg.Done(). *)
Lemma done_after_both (s : State) :
  Inv s -> done_closed s = true ->
  dones (pipeline s) = 1 /\ dones (server s) = 1.
Proof.
  intros I D. pose proof (inv_wg s I) as Iwg.
  pose proof (inv_waiter s I) as Iwt. rewrite D in Iwt.
  destruct (waiter s); try (exfalso; intuition discriminate).
  destruct Iwt as (G & _ & Z0). rewrite Z0 in Iwg.
  destruct (main s); try discriminate G;
    destruct (pipeline s), (server s); cbn in *; lia.
Qed.

(** The clock moves by the ticks of the schedule and by nothing else. *)
Lemma step_clock (l : Label) (s s' : State) :
  step l s = Some s' -> clock s' = clock s + ticks [l].
Proof.
  intros H. by_step s l H; lia.
Qed.

Lemma exec_clock (tr : list Label) (s s' : State) :
  exec tr s = Some s' -> clock s' = clock s + ticks tr.
Proof.
  revert s. induction tr as [| l tr IH]; intros s H; cbn in H.
  - injection H as <-. cbn. lia.
  - destruct (step l s) as [s1 |] eqn:E; [| discriminate].
    rewrite (IH s1 H), (step_clock l s s1 E).
    destruct l; cbn; lia.
Qed.

(** Once the select of line 206 is entered its timer is left alone. *)
Lemma step_timer (l : Label) (s s' : State) :
  step l s = Some s' ->
  (9 <= main_pos (main s))%nat ->
  timer s' = timer s /\ (9 <= main_pos (main s'))%nat.
Proof.
  intros H. by_step s l H; cbn; intros P; first [lia | split; [reflexivity | lia]].
Qed.

Lemma exec_timer (tr : list Label) (s s' : State) :
  exec tr s = Some s' ->
  (9 <= main_pos (main s))%nat ->
  timer s' = timer s.
Proof.
  revert s. induction tr as [| l tr IH]; intros s H P; cbn in H.
  - now injection H as <-.
  - destruct (step l s) as [s1 |] eqn:E; [| discriminate].
    destruct (step_timer l s s1 E P) as [<- P1]. now apply IH.
Qed.

(** Before the select of line 206 is entered no timer is armed. *)
Lemma timer_unarmed (w : World) (tr : list Label) (s : State) :
  reaches w tr s -> (main_pos (main s) <= 8)%nat -> timer s = None.
Proof.
  revert tr s.
  apply (reaches_induction w
           (fun _ s => (main_pos (main s) <= 8)%nat -> timer s = None)).
  - reflexivity.
  - intros tr s l s' _ _ IH H. by_step s l H; cbn in IH |- *; intros P;
      first [lia | apply IH; lia].
Qed.

(** While the main goroutine is blocked in the select of line 206, the
    timer stands at gracefulTimeout after the clock of the state in
    which the select was entered, and the clock at that moment plus the
    time passed since. *)
Lemma grace_wait (w : World) (x y : list Label) (s : State) :
  exec (x ++ EnterGrace :: y) (init w) = Some s ->
  exists s0,
    exec x (init w) = Some s0 /\
    timer s = Some (clock s0 + gracefulTimeout) /\
    clock s = clock s0 + ticks y.
Proof.
  intros E. rewrite exec_app in E.
  destruct (exec x (init w)) as [s1 |]; [| discriminate]. cbn in E.
  destruct (step EnterGrace s1) as [s2 |] eqn:S1; [| discriminate].
  assert (T2 : timer s2 = Some (clock s1 + gracefulTimeout) /\
               clock s2 = clock s1 /\ main s2 = MGrace).
  { unfold step in S1. destruct s1 as [? ? ? ? ? ? ? ? ? m ? ? pr]. cbn in *.
    destruct pr; [discriminate |]. destruct m; try discriminate.
    injection S1 as <-. now cbn. }
  destruct T2 as (T & C & M).
  exists s1. split; [reflexivity |]. split.
  - rewrite <- T. apply (exec_timer y s2 s E). rewrite M. cbn. lia.
  - rewrite <- C. apply (exec_clock y s2 s E).
Qed.

(** A signal relayed to c stays there until the case <-c takes it. *)
Lemma interrupt_stays_pending (w : World) (tr : list Label) (s : State) :
  reaches w tr s ->
  In Interrupt tr -> (main_pos (main s) <= 6)%nat -> sig_pending s = true.
Proof.
  revert tr s.
  apply (reaches_induction w
           (fun tr s =>
              In Interrupt tr -> (main_pos (main s) <= 6)%nat ->
              sig_pending s = true)).
  - intros [].
  - intros tr s l s' _ _ IH H. by_step s l H; cbn in IH |- *; intros E P;
      snoc_in; first [lia | reflexivity | apply IH; [exact E | lia]].
Qed.

(** * The claims about the tail *)

(** C1, as the code has it. When an interrupt has come and a task has
    not finished, at the select of line 199 the case <-done is closed
    and the case <-c is the main goroutine's only step; from there it
    calls cancel(), which leaves the context cancelled, and enters the
    select of line 206, arming its timer for 5000 ms from that moment.
    While it waits there the context is cancelled, the timer stands at
    5000 ms after the moment the select was entered, the case <-done is
    open exactly when done is closed, and the timer case is open exactly
    when 5000 ms have passed since the select was entered, so the wait
    is bounded by that. When the 5000 ms have passed and done is not
    closed, the timer case is the only step: the error "Graceful
    timeout exceeded. Brutally killing the application" is logged and
    [run] returns without waiting for the tasks, which stay where they
    stood, and that ends the process with the status of a return from
    [run], 0. *)
Theorem interrupt_shutdown (w : World) (tr : list Label) (s : State) :
  exec tr (init w) = Some s ->
  (* the interrupt came and a task has not finished: at the select of
     line 199 only the case <-c can be taken, and the main goroutine's
     next steps cancel the context and arm the timer *)
  (In Interrupt tr -> main s = MSelect ->
   body_returned (pipeline s) = false \/ body_returned (server s) = false ->
   sig_pending s = true /\
   step SelectDone s = None /\
   exists s',
     exec [SelectSig; MainCancel; EnterGrace] s = Some s' /\
     main s' = MGrace /\ cancelled s' = true /\
     timer s' = Some (clock s + 5000 * Millisecond) /\
     clock s' = clock s /\
     pipeline s' = pipeline s /\ server s' = server s) /\
  (* with a signal in c the case <-c is open *)
  (main s = MSelect -> sig_pending s = true ->
   exists s', step SelectSig s = Some s' /\ main s' = MCancel) /\
  (* once it was taken, cancel() is the next step or has run *)
  (In SelectSig tr -> main s = MCancel \/ cancelled s = true) /\
  (* line 205: cancel() leaves the context cancelled *)
  (main s = MCancel ->
   step MainCancel s = Some (set_main MGraceEnter (cancel s)) /\
   cancelled (set_main MGraceEnter (cancel s)) = true) /\
  (* entering the select of line 206 arms the timer for 5000 ms from
     that moment *)
  (main s = MGraceEnter ->
   exists s',
     step EnterGrace s = Some s' /\
     main s' = MGrace /\ cancelled s' = true /\
     timer s' = Some (clock s + 5000 * Millisecond) /\
     clock s' = clock s) /\
  (* the wait, [s0] being the state in which the select was entered:
     the timer case is open exactly when 5000 ms have passed since, the
     case <-done exactly when done is closed *)
  (forall x y,
     tr = x ++ EnterGrace :: y -> main s = MGrace ->
     exists s0,
       exec x (init w) = Some s0 /\
       timer s = Some (clock s0 + 5000 * Millisecond) /\
       clock s = clock s0 + ticks y /\
       cancelled s = true /\
       ((exists s', step GraceTimeout s = Some s') <->
        5000 * Millisecond <= ticks y) /\
       ((exists s', step GraceDone s = Some s') <-> done_closed s = true)) /\
  (* the same, told from the state alone *)
  (main s = MGrace ->
   exists entered,
     timer s = Some (entered + 5000 * Millisecond) /\
     0 <= entered <= clock s /\
     ((exists s', step GraceTimeout s = Some s') <->
      entered + 5000 * Millisecond <= clock s)) /\
  (* the grace period has passed and done is not closed *)
  (forall x y,
     tr = x ++ EnterGrace :: y -> main s = MGrace ->
     5000 * Millisecond <= ticks y ->
     done_closed s = false ->
     step GraceDone s = None /\
     exists s1 s2,
       step GraceTimeout s = Some s1 /\
       In timeout_logged (events (world s1)) /\
       step RunReturn s1 = Some s2 /\
       proc s2 = Some Returned /\ exit_status Returned = 0 /\
       pipeline s2 = pipeline s /\ server s2 = server s) /\
  (* after the timer case *)
  (In GraceTimeout tr ->
   In timeout_logged (events (world s)) /\
   (proc s = None ->
    exists s', step RunReturn s = Some s' /\ proc s' = Some Returned) /\
   (forall o, proc s = Some o -> o = Returned /\ exit_status o = 0)).
Proof.
  intros E0. pose proof (exec_reaches w tr s E0) as E.
  pose proof (reaches_Inv w tr s E) as I.
  assert (ND : body_returned (pipeline s) = false \/
               body_returned (server s) = false ->
               done_closed s = false).
  { intros B. destruct (done_closed s) eqn:D; [| reflexivity].
    destruct (done_after_both s I D) as [D1 D2].
    destruct (pipeline s), (server s); cbn in *; destruct B; discriminate. }
  assert (W : forall x y,
             tr = x ++ EnterGrace :: y -> main s = MGrace ->
             exists s0,
               exec x (init w) = Some s0 /\
               timer s = Some (clock s0 + 5000 * Millisecond) /\
               clock s = clock s0 + ticks y /\
               ((exists s', step GraceTimeout s = Some s') <->
                5000 * Millisecond <= ticks y) /\
               ((exists s', step GraceDone s = Some s') <->
                done_closed s = true)).
  { intros x y -> Hm. destruct (grace_wait w x y s E0) as (s0 & X0 & T & C).
    exists s0. split; [exact X0 |]. split; [exact T |]. split; [exact C |].
    unfold step. rewrite (alive_of_main s I) by congruence.
    rewrite Hm, T, C. unfold gracefulTimeout. split.
    - destruct (Z.leb_spec (clock s0 + 5000 * Millisecond)
                  (clock s0 + ticks y)).
      + split; [lia | eauto].
      + split; [intros [s' H']; discriminate H' | lia].
    - destruct (done_closed s).
      + split; [reflexivity | eauto].
      + split; [intros [s' H']; discriminate H' | discriminate]. }
  repeat match goal with |- _ /\ _ => split end.
  - intros Hi Hm B.
    assert (Hs : sig_pending s = true).
    { apply (interrupt_stays_pending w tr s E Hi). rewrite Hm. cbn. lia. }
    pose proof (alive_of_main s I) as A. pose proof (ND B) as D.
    split; [exact Hs |].
    destruct s as [w_ c g p sv wt dc nt sp m ck tm pr]. cbn in *.
    rewrite A by congruence. subst m sp dc. cbn.
    split; [reflexivity |]. eexists. split; [reflexivity |].
    cbn. unfold gracefulTimeout. repeat split.
  - intros Hm Hs. unfold step.
    rewrite (alive_of_main s I) by congruence. rewrite Hm, Hs.
    eexists. split; [reflexivity |]. now destruct s.
  - apply (cancel_sticks w tr s E).
  - intros Hm. split; [| now destruct s]. unfold step.
    rewrite (alive_of_main s I) by congruence. now rewrite Hm.
  - intros Hm. pose proof (inv_cancelled_main s I) as C. rewrite Hm in C.
    unfold step. rewrite (alive_of_main s I) by congruence. rewrite Hm.
    eexists. split; [reflexivity |]. destruct s; cbn in *. now subst.
  - intros x y Hx Hm. destruct (W x y Hx Hm) as (s0 & X0 & T & C & G).
    exists s0. split; [exact X0 |]. split; [exact T |]. split; [exact C |].
    split; [| exact G].
    pose proof (inv_cancelled_main s I) as Cm. now rewrite Hm in Cm.
  - intros Hm. pose proof (inv_timer s I) as T. unfold step.
    rewrite (alive_of_main s I) by congruence. rewrite Hm.
    destruct (timer s) as [deadline |]; [| exfalso; tauto].
    exists (deadline - gracefulTimeout). unfold gracefulTimeout in *.
    split; [f_equal; lia |]. split; [lia |].
    destruct (Z.leb_spec deadline (clock s)).
    + split; [lia | eauto].
    + split; [intros [s' H']; discriminate H' | lia].
  - intros x y Hx Hm Ht D. split.
    { unfold step.
      rewrite (alive_of_main s I) by congruence. now rewrite Hm, D. }
    destruct (W x y Hx Hm) as (s0 & _ & _ & _ & [_ W1] & _).
    destruct (W1 Ht) as [s1 S1].
    assert (Q : s1 = set_main MReturn (log Error
         "Graceful timeout exceeded. Brutally killing the application" s)).
    { unfold step in S1. rewrite (alive_of_main s I) in S1 by congruence.
      rewrite Hm in S1. destruct (timer s) as [dl |]; [| discriminate].
      destruct (dl <=? clock s); [| discriminate]. now injection S1. }
    exists s1. eexists. split; [exact S1 |]. subst s1.
    pose proof (alive_of_main s I) as A.
    destruct s as [w_ c g p sv wt dc nt sp m ck tm pr]. cbn in *.
    rewrite A by congruence.
    split; [apply in_or_app; right; now left |].
    split; [reflexivity |]. repeat split.
  - intros Ht. destruct (grace_timeout_facts w tr s E Ht) as (L & M & _ & P).
    split; [exact L |]. split.
    + intros Hp. pose proof (inv_proc s I) as Q. unfold step.
      rewrite Hp in *. destruct M as [-> | M]; [| contradiction].
      eexists. split; [reflexivity |]. now destruct s.
    + intros o Ho. rewrite (P o Ho). now split.
Qed.

(** C2, as the code has it: [run] drops what pl.Start returns. A run in
    which a body fails goes step for step like the same schedule with
    the body succeeding, in the same world and to the same end; and
    whenever the tail ends the process, the exit status is 0. *)
Theorem start_result_dropped (w : World) (tr : list Label) (s : State) :
  exec tr (init w) = Some s ->
  exec (map forget_result tr) (init w) = Some (forget s) /\
  proc (forget s) = proc s /\
  world (forget s) = world s /\
  (forall o, proc s = Some o -> exit_status o = 0).
Proof.
  intros E. split; [| split; [| split]].
  - rewrite <- forget_init. now apply exec_forget.
  - now destruct s.
  - now destruct s.
  - intros o. apply exit_status_zero.
    exact (reaches_Inv w tr s (exec_reaches w tr s E)).
Qed.

(** C3: on a schedule without interrupt the process can only end by
    os.Exit(0), and once both bodies are back it does so when the
    goroutines run on; when the case <-done of line 207 was taken after
    an interrupt, both tasks have finished, [run] returns, and the exit
    status is 0. *)
Theorem clean_completion_exits_zero (w : World) (tr : list Label)
    (s : State) :
  exec tr (init w) = Some s ->
  (~ In Interrupt tr ->
   (forall o, proc s = Some o -> o = Exited 0 /\ exit_status o = 0) /\
   (proc s = None ->
    body_returned (pipeline s) = true ->
    body_returned (server s) = true ->
    exists s',
      exec (tr ++ drain s) (init w) = Some s' /\
      ~ In Interrupt (tr ++ drain s) /\
      proc s' = Some (Exited 0))) /\
  (In GraceDone tr ->
   In Interrupt tr /\
   dones (pipeline s) = 1 /\ dones (server s) = 1 /\
   In within_timeout_logged (events (world s)) /\
   (proc s = None ->
    exists s', step RunReturn s = Some s' /\ proc s' = Some Returned) /\
   (forall o, proc s = Some o -> o = Returned /\ exit_status o = 0)).
Proof.
  intros E0. pose proof (exec_reaches w tr s E0) as E.
  pose proof (reaches_Inv w tr s E) as I. split.
  - intros NI.
    assert (NS : ~ In SelectSig tr)
      by (intros S; apply NI, (sig_after_interrupt w tr s E S)).
    assert (NP : on_interrupt_path (main s) = false /\ proc s <> Some Returned).
    { split.
      - destruct (on_interrupt_path (main s)) eqn:P; [| reflexivity].
        exfalso. apply NS, (interrupt_path_after_sig w tr s E). now left.
      - intros P. apply NS, (interrupt_path_after_sig w tr s E). now right. }
    destruct NP as [NP1 NP2]. split.
    + intros o Ho. pose proof (inv_proc s I) as P. rewrite Ho in P.
      destruct o as [code | |]; [| congruence | contradiction].
      destruct P as [-> _]. now split.
    + intros Hp Bp Bs.
      destruct (drain_exits s I Hp Bp Bs NP1) as (s' & D & P).
      exists s'. split; [now rewrite exec_app, E0 |]. split; [| exact P].
      intros J. apply in_app_iff in J. destruct J as [J | J]; [now apply NI |].
      now apply (proj1 (drain_quiet s)).
  - intros Hd. destruct (grace_done_facts w tr s E Hd) as (L & M & D & P).
    split.
    { apply (sig_after_interrupt w tr s E).
      apply (interrupt_path_after_sig w tr s E).
      pose proof (inv_proc s I) as Q.
      destruct M as [M | M]; rewrite M in *; [now left |].
      right. destruct (proc s) as [o |]; [| congruence].
      now rewrite (P o eq_refl). }
    assert (W : dones (pipeline s) = 1 /\ dones (server s) = 1).
    { pose proof (inv_wg s I) as Iwg. pose proof (inv_waiter s I) as Iwt.
      rewrite D in Iwt.
      destruct (waiter s); try (exfalso; intuition discriminate).
      destruct Iwt as (G & _ & Z0). rewrite Z0 in Iwg.
      destruct (main s); try discriminate G;
        destruct (pipeline s), (server s); cbn in *; lia. }
    destruct W as [W1 W2]. repeat (split; [assumption |]). split.
    + intros Hp. pose proof (inv_proc s I) as Q. unfold step.
      rewrite Hp in *. destruct M as [-> | M]; [| contradiction].
      eexists. split; [reflexivity |]. now destruct s.
    + intros o Ho. rewrite (P o Ho). now split.
Qed.

(** C4: in every state in which a task goroutine has ended, the shared
    context is cancelled; for either task, whichever way its body comes
    back, the goroutine goes on to run the deferred wg.Done() and
    cancel(), which never block, and leaves the context cancelled; and
    so it does from any point after the body is back. *)
Theorem task_end_cancels (w : World) (tr : list Label) (s : State)
    (t : TaskId) :
  exec tr (init w) = Some s ->
  (ended (task_pc t s) = true -> cancelled s = true) /\
  (forall r,
     proc s = None ->
     task_pc t s = TBody ->
     exists s',
       exec [TaskReturn t r; TaskWgDone t; TaskCancel t] s = Some s' /\
       cancelled s' = true /\ task_pc t s' = TEnd r /\ proc s' = None) /\
  (proc s = None ->
   body_returned (task_pc t s) = true ->
   exists s',
     exec (finish_task t s) s = Some s' /\
     cancelled s' = true /\ ended (task_pc t s') = true).
Proof.
  intros E. pose proof (reaches_Inv w tr s (exec_reaches w tr s E)) as I.
  split; [| split].
  - destruct t; [apply (inv_cancelled_pipeline s I)
                | apply (inv_cancelled_server s I)].
  - intros r Hp Ht. now apply task_finish_cancels.
  - intros Hp Ht. now apply finish_task_cancels.
Qed.

(** C5: on every schedule the steps of the shutdown come in this
    order, each with what the earlier ones left behind. The cancel() of
    line 205 runs with no timer armed and leaves the context cancelled;
    the select of line 206 is entered only after that cancel(), with
    the context cancelled and no timer armed, and entering it arms the
    timer; either case of that select, <-done or the timeout, is taken
    only after the select was entered, with the context cancelled and
    the timer armed, the timeout only when the timer's deadline has
    passed and <-done only when done is closed. *)
Theorem shutdown_order (w : World) (tr : list Label) (s : State) :
  exec tr (init w) = Some s ->
  (forall x z, tr = x ++ EnterGrace :: z -> In MainCancel x) /\
  (forall x z l,
     l = GraceDone \/ l = GraceTimeout ->
     tr = x ++ l :: z ->
     exists x1 x2, x = x1 ++ EnterGrace :: x2 /\ In MainCancel x1) /\
  (* the cancel() of line 205 leaves the context cancelled *)
  (forall x z,
     tr = x ++ MainCancel :: z ->
     exists s1 s2,
       exec x (init w) = Some s1 /\ timer s1 = None /\
       step MainCancel s1 = Some s2 /\ cancelled s2 = true) /\
  (* the select is entered with the context cancelled and no timer
     armed yet; entering arms the timer *)
  (forall x z,
     tr = x ++ EnterGrace :: z ->
     exists s1 s2,
       exec x (init w) = Some s1 /\
       cancelled s1 = true /\ timer s1 = None /\
       step EnterGrace s1 = Some s2 /\
       cancelled s2 = true /\
       timer s2 = Some (clock s1 + gracefulTimeout)) /\
  (* a case of the select is taken with the context cancelled and the
     timer armed *)
  (forall x z l,
     l = GraceDone \/ l = GraceTimeout ->
     tr = x ++ l :: z ->
     exists s1 deadline,
       exec x (init w) = Some s1 /\
       cancelled s1 = true /\ timer s1 = Some deadline /\
       (l = GraceTimeout -> deadline <= clock s1) /\
       (l = GraceDone -> done_closed s1 = true)).
Proof.
  intros E.
  assert (P : forall x z l,
             tr = x ++ l :: z ->
             exists s1 s2,
               exec x (init w) = Some s1 /\ reaches w x s1 /\ Inv s1 /\
               proc s1 = None /\ step l s1 = Some s2).
  { intros x z l ->. destruct (exec_split _ _ _ _ _ E) as (s1 & s2 & E1 & S).
    pose proof (exec_reaches w x s1 E1) as R.
    exists s1, s2. split; [exact E1 |]. split; [exact R |].
    split; [exact (reaches_Inv w x s1 R) |]. split; [| exact S].
    unfold step in S. now destruct (proc s1). }
  repeat match goal with |- _ /\ _ => split end.
  - intros x z Hx. destruct (P _ _ _ Hx) as (s1 & s2 & _ & R & _ & A & S).
    apply (proj1 (main_pc_history w x s1 R)).
    unfold step in S. rewrite A in S. now destruct (main s1).
  - intros x z l Hl Hx.
    destruct (P _ _ _ Hx) as (s1 & s2 & _ & R & _ & A & S).
    apply (proj2 (main_pc_history w x s1 R)).
    unfold step in S. rewrite A in S.
    destruct Hl as [-> | ->]; now destruct (main s1).
  - intros x z Hx. destruct (P _ _ _ Hx) as (s1 & s2 & E1 & R & I & A & S).
    exists s1, s2. split; [exact E1 |].
    assert (M : main s1 = MCancel).
    { unfold step in S. rewrite A in S. now destruct (main s1). }
    split; [apply (timer_unarmed w x s1 R); rewrite M; cbn; lia |].
    split; [exact S |].
    unfold step in S. rewrite A, M in S. injection S as <-. now destruct s1.
  - intros x z Hx. destruct (P _ _ _ Hx) as (s1 & s2 & E1 & R & I & A & S).
    exists s1, s2. split; [exact E1 |].
    assert (M : main s1 = MGraceEnter).
    { unfold step in S. rewrite A in S. now destruct (main s1). }
    pose proof (inv_cancelled_main s1 I) as C. rewrite M in C.
    split; [exact C |].
    split; [apply (timer_unarmed w x s1 R); rewrite M; cbn; lia |].
    split; [exact S |].
    unfold step in S. rewrite A, M in S. injection S as <-.
    destruct s1; cbn in *. now subst.
  - intros x z l Hl Hx.
    destruct (P _ _ _ Hx) as (s1 & s2 & E1 & R & I & A & S).
    assert (M : main s1 = MGrace).
    { unfold step in S. rewrite A in S.
      destruct Hl as [-> | ->]; now destruct (main s1). }
    pose proof (inv_cancelled_main s1 I) as C. rewrite M in C.
    pose proof (inv_timer s1 I) as T.
    destruct (timer s1) as [deadline |] eqn:Tm; [| exfalso; tauto].
    exists s1, deadline. split; [exact E1 |]. split; [exact C |].
    split; [exact Tm |]. unfold step in S. rewrite A, M in S. split.
    + intros ->. rewrite Tm in S.
      destruct (Z.leb_spec deadline (clock s1)); [assumption | discriminate].
    + intros ->. now destruct (done_closed s1).
Qed.

(** * The claims about the whole of [run] *)

(** C8: when the configuration loads and the logger is made, every run,
    wherever it stops or stands, has called global.SetNeuronHost exactly
    once, and global.NeuronHost is strings.TrimSpace(cfg.SynapseHost)
    with LocalRunner set and global.NeuronRemoteHost otherwise. *)
Theorem host_resolved_once (X : Externals) (env : Env) (w0 : World)
    (cfg : NucleusConfig) (tr : list Label)
    (r : World * Stop + Launch * State) :
  load_config env = inl cfg ->
  ctor_err env NewLogger = None ->
  run X env w0 tr = Some r ->
  NeuronHost (final_world r) =
    (if LocalRunner cfg then TrimSpace X (SynapseHost cfg)
     else NeuronRemoteHost X) /\
  host_sets (events (final_world r)) = (host_sets (events w0) + 1)%nat.
Proof.
  intros Hcfg Hlog Hrun. unfold run in Hrun.
  destruct (startup_host X env w0 cfg Hcfg Hlog) as [Hh Hn].
  destruct (startup X env w0) as [w [la | st]]; cbn in Hh, Hn.
  - destruct (exec tr (init w)) as [s |] eqn:E; [| discriminate].
    injection Hrun as <-. cbn.
    destruct (exec_world tr (init w) s E) as [-> ->]. now split.
  - injection Hrun as <-. now split.
Qed.

(** C6: in every state of the tail, so whenever pl.Start is invoked or
    running, the constructors of the fourteen plugins have been called,
    and the pipeline's fourteen plugin fields hold the values the
    start-up constructed in lines 101-146 and assigned in lines 151-164,
    none of them nil, whatever core.NewPipeline had put there; and
    Start, whatever its stages, calls no constructor: every collaborator
    a stage uses is the value a plugin's constructor returned to a call
    [run] had made before the tail began. *)
Theorem collaborators_wired_before_start (X : Externals) (env : Env)
    (w0 : World) (tr : list Label) (la : Launch) (s : State) :
  run X env w0 tr = Some (inr (la, s)) ->
  plugins_constructed (world s) /\
  la_pl la = wired (la_cfg la) /\
  Forall (fun o => o <> ONil)
    [PayloadManager (la_pl la); TASConfigManager (la_pl la);
     GitManager (la_pl la); DiffManager (la_pl la);
     TestDiscoveryService (la_pl la); TestBlockListService (la_pl la);
     TestExecutionService (la_pl la); ExecutionManager (la_pl la);
     ParserService (la_pl la); CoverageService (la_pl la);
     TestStats (la_pl la); Task (la_pl la); CacheStore (la_pl la);
     SecretParser (la_pl la)] /\
  (forall f, constructed_in (fst (startup X env w0)) (field f (la_pl la))) /\
  (forall stages,
     constructs (Start stages (la_pl la)) = [] /\
     Forall (constructed_in (world s)) (uses (Start stages (la_pl la))) /\
     Forall (constructed_in (fst (startup X env w0)))
       (uses (Start stages (la_pl la)))).
Proof.
  intros Hrun. unfold run in Hrun.
  destruct (startup X env w0) as [w [la' | st]] eqn:E; [| discriminate].
  destruct (exec tr (init w)) as [s1 |] eqn:T; [| discriminate].
  injection Hrun as -> ->. split.
  - pose proof (startup_calls X env w0 w la E) as C.
    unfold plugins_constructed in *.
    eapply Forall_impl; [| exact C].
    intros c [args Hc]. exists args.
    exact (exec_events tr (init w) s (ECall c args) T Hc).
  - rewrite (startup_wired X env w0 w la E). split; [reflexivity |].
    split; [repeat constructor; discriminate |].
    rewrite <- (startup_wired X env w0 w la E).
    pose proof (startup_fields X env w0 w la E) as F. cbn.
    split; [exact F |].
    intros stages. split; [reflexivity |].
    assert (G : Forall (constructed_in w) (uses (Start stages (la_pl la)))).
    { cbn. apply Forall_forall. intros o Ho.
      apply in_map_iff in Ho. destruct Ho as (f & <- & _). apply F. }
    split; [| exact G].
    eapply Forall_impl; [| exact G].
    intros o (c & args & Ho & Hc & Hin). exists c, args.
    split; [exact Ho |]. split; [exact Hc |].
    exact (exec_events tr (init w) s (ECall c args) T Hin).
Qed.

(** * The theorems at concrete runs *)

Lemma config_failure_exits_at_once_witness :
  run sample_externals env_no_config empty_world launch_schedule =
    Some (inl (mkWorld
                 [ECall LoadNucleusConfig [OCmd];
                  EPrintf
                    "[Error] Failed to load config: open .nucleus.json: no such file"]
                 "",
               OsExit 1)).
Proof.
  exact (proj1 (config_failure_exits_at_once sample_externals env_no_config
                  empty_world "open .nucleus.json: no such file"
                  launch_schedule eq_refl)).
Defined.

Lemma log_location_patched_witness :
  (exists rest,
     events (fst (startup sample_externals env_ok empty_world)) =
       [ECall LoadNucleusConfig [OCmd];
        ECall NewLogger
          [OLogConfig (mkLoggingConfig "/var/log/nucleus/nucleus.log");
           OBool false; OInstanceZapLogger]] ++ rest) /\
  (exists rest,
     events (fst (startup sample_externals env_remote empty_world)) =
       [ECall LoadNucleusConfig [OCmd];
        ECall NewLogger
          [OLogConfig (mkLoggingConfig "./default.log");
           OBool true; OInstanceZapLogger]] ++ rest).
Proof.
  split.
  - refine (proj1 (log_location_patched sample_externals env_ok empty_world
                     sample_config eq_refl) _).
    discriminate.
  - exact (proj2 (log_location_patched sample_externals env_remote
                    empty_world remote_config eq_refl) eq_refl).
Defined.

Lemma azure_failure_is_fatal_witness :
  snd (startup sample_externals env_no_azure empty_world) =
    inr (LoggerFatalf AtAzure) /\
  snd (startup sample_externals env_remote_no_azure empty_world) =
    inr (LoggerFatalf AtAzure).
Proof.
  split.
  - exact (proj1 (proj1 (azure_failure_is_fatal sample_externals env_no_azure
                           empty_world)
                    sample_config "missing credentials"
                    eq_refl eq_refl eq_refl eq_refl eq_refl)).
  - exact (proj1 (proj1 (azure_failure_is_fatal sample_externals
                           env_remote_no_azure empty_world)
                    remote_config "missing credentials"
                    eq_refl eq_refl eq_refl eq_refl eq_refl)).
Defined.

Lemma host_resolved_once_witness :
  (exists r,
     run sample_externals env_ok empty_world start_fails_schedule = Some r /\
     NeuronHost (final_world r) = "10.0.0.7" /\
     host_sets (events (final_world r)) = 1%nat) /\
  (exists r,
     run sample_externals env_remote_no_azure empty_world [] = Some r /\
     NeuronHost (final_world r) = "neuron.example.org" /\
     host_sets (events (final_world r)) = 1%nat).
Proof.
  split; eexists; (split; [vm_compute; reflexivity |]).
  - refine (host_resolved_once sample_externals env_ok empty_world
              sample_config start_fails_schedule _ eq_refl eq_refl _).
    vm_compute; reflexivity.
  - refine (host_resolved_once sample_externals env_remote_no_azure
              empty_world remote_config [] _ eq_refl eq_refl _).
    vm_compute; reflexivity.
Defined.

Lemma collaborators_wired_before_start_witness :
  exists la s,
    run sample_externals env_ok empty_world launch_schedule =
      Some (inr (la, s)) /\
    pipeline s = TBody /\
    la_pl la = wired (la_cfg la) /\
    ExecutionManager (la_pl la) <> ONil /\
    constructs (Start [FGitManager; FExecutionManager] (la_pl la)) = [] /\
    Forall (constructed_in (world s))
      (uses (Start [FGitManager; FExecutionManager] (la_pl la))).
Proof.
  eexists. eexists. split; [vm_compute; reflexivity |].
  match goal with
  | |- pipeline ?s = _ /\ la_pl ?la = _ /\ _ =>
      pose proof (collaborators_wired_before_start sample_externals env_ok
                    empty_world launch_schedule la s) as W
  end.
  match type of W with
  | ?A -> _ => assert (R : A) by (vm_compute; reflexivity)
  end.
  destruct (W R) as (_ & W1 & _ & _ & W4).
  destruct (W4 [FGitManager; FExecutionManager]) as (C & U & _).
  split; [reflexivity |]. split; [exact W1 |].
  split; [discriminate |]. split; [exact C | exact U].
Defined.

Lemma interrupt_shutdown_witness :
  exec grace_exceeded_schedule (init empty_world) =
    Some (state_after grace_exceeded_schedule) /\
  In timeout_logged (events (world (state_after grace_exceeded_schedule))) /\
  exit_status Returned = 0 /\
  step SelectDone (state_after interrupted_schedule) = None /\
  exists s',
    exec [SelectSig; MainCancel; EnterGrace]
      (state_after interrupted_schedule) = Some s' /\
    cancelled s' = true /\
    timer s' =
      Some (clock (state_after interrupted_schedule) + 5000 * Millisecond).
Proof.
  assert (E : exec grace_exceeded_schedule (init empty_world) =
              Some (state_after grace_exceeded_schedule))
    by (vm_compute; reflexivity).
  split; [exact E |].
  destruct (interrupt_shutdown empty_world grace_exceeded_schedule
              (state_after grace_exceeded_schedule) E)
    as (_ & _ & _ & _ & _ & _ & _ & _ & T).
  destruct T as (L & _ & P); [in_list |].
  split; [exact L |]. split; [exact (proj2 (P Returned eq_refl)) |].
  assert (E2 : exec interrupted_schedule (init empty_world) =
               Some (state_after interrupted_schedule))
    by (vm_compute; reflexivity).
  assert (M : main (state_after interrupted_schedule) = MSelect)
    by (vm_compute; reflexivity).
  assert (B : body_returned (pipeline (state_after interrupted_schedule)) =
              false \/
              body_returned (server (state_after interrupted_schedule)) =
              false)
    by (left; vm_compute; reflexivity).
  assert (Hi : In Interrupt interrupted_schedule) by in_list.
  destruct (interrupt_shutdown empty_world interrupted_schedule
              (state_after interrupted_schedule) E2) as (A & _).
  destruct (A Hi M B) as (_ & D & s' & X & _ & C & Tm & _).
  split; [exact D |]. exists s'. split; [exact X |]. split; [exact C |].
  exact Tm.
Defined.

Lemma start_result_dropped_witness :
  exec (map forget_result start_fails_schedule) (init empty_world) =
    Some (forget (state_after start_fails_schedule)) /\
  exit_status (Exited 0) = 0.
Proof.
  destruct (start_result_dropped empty_world start_fails_schedule
              (state_after start_fails_schedule))
    as (F & _ & _ & Z0); [vm_compute; reflexivity |].
  split; [exact F |]. exact (Z0 (Exited 0) eq_refl).
Defined.

Lemma clean_completion_exits_zero_witness :
  (Exited 0 = Exited 0 /\ exit_status (Exited 0) = 0) /\
  (exists s',
     exec (bodies_back_schedule ++ drain (state_after bodies_back_schedule))
       (init empty_world) = Some s' /\
     proc s' = Some (Exited 0)) /\
  (Returned = Returned /\ exit_status Returned = 0).
Proof.
  split; [| split].
  - refine (proj1 (proj1 (clean_completion_exits_zero empty_world
                            start_fails_schedule
                            (state_after start_fails_schedule) _) _)
              (Exited 0) eq_refl).
    + vm_compute; reflexivity.
    + cbn. intuition discriminate.
  - destruct (proj2 (proj1 (clean_completion_exits_zero empty_world
                              bodies_back_schedule
                              (state_after bodies_back_schedule)
                              eq_refl)
                       ltac:(cbn; intuition discriminate))
                eq_refl eq_refl eq_refl) as (s' & E & _ & P).
    exists s'. now split.
  - destruct (proj2 (clean_completion_exits_zero empty_world
                       within_grace_schedule
                       (state_after within_grace_schedule)
                       ltac:(vm_compute; reflexivity))
                ltac:(in_list)) as (_ & _ & _ & _ & _ & P).
    exact (P Returned eq_refl).
Defined.

Lemma task_end_cancels_witness :
  cancelled (state_after start_fails_schedule) = true /\
  exists s',
    exec [TaskReturn PipelineTask Failed; TaskWgDone PipelineTask;
          TaskCancel PipelineTask] (state_after launch_schedule) = Some s' /\
    cancelled s' = true.
Proof.
  split.
  - refine (proj1 (task_end_cancels empty_world start_fails_schedule
                     (state_after start_fails_schedule) PipelineTask _) _);
      vm_compute; reflexivity.
  - destruct (proj1 (proj2 (task_end_cancels empty_world launch_schedule
                              (state_after launch_schedule) PipelineTask
                              eq_refl))
                Failed eq_refl eq_refl) as (s' & E & C & _).
    exists s'. now split.
Defined.

Lemma shutdown_order_witness :
  In MainCancel
    [WgAdd1; GoPipeline; WgAdd2; GoServer; Notify; GoWaiter;
     Interrupt; SelectSig; MainCancel] /\
  (exists x1 x2,
    [WgAdd1; GoPipeline; WgAdd2; GoServer; Notify; GoWaiter;
     Interrupt; SelectSig; MainCancel; EnterGrace;
     Tick (5000 * Millisecond)] = x1 ++ EnterGrace :: x2 /\
    In MainCancel x1) /\
  exists s1 s2,
    exec [WgAdd1; GoPipeline; WgAdd2; GoServer; Notify; GoWaiter;
          Interrupt; SelectSig] (init empty_world) = Some s1 /\
    timer s1 = None /\
    step MainCancel s1 = Some s2 /\ cancelled s2 = true.
Proof.
  assert (E : exec grace_exceeded_schedule (init empty_world) =
              Some (state_after grace_exceeded_schedule))
    by (vm_compute; reflexivity).
  destruct (shutdown_order empty_world grace_exceeded_schedule
              (state_after grace_exceeded_schedule) E) as (O1 & O2 & O3 & _).
  split; [| split].
  - exact (O1 [WgAdd1; GoPipeline; WgAdd2; GoServer; Notify; GoWaiter;
               Interrupt; SelectSig; MainCancel]
             [Tick (5000 * Millisecond); GraceTimeout; RunReturn] eq_refl).
  - exact (O2 [WgAdd1; GoPipeline; WgAdd2; GoServer; Notify; GoWaiter;
               Interrupt; SelectSig; MainCancel; EnterGrace;
               Tick (5000 * Millisecond)]
             [RunReturn] GraceTimeout (or_intror eq_refl) eq_refl).
  - exact (O3 [WgAdd1; GoPipeline; WgAdd2; GoServer; Notify; GoWaiter;
               Interrupt; SelectSig]
             [EnterGrace; Tick (5000 * Millisecond); GraceTimeout; RunReturn]
             eq_refl).
Defined.

(** * Where the spec's words and the code part *)

(** C1 as stated fails: the interrupt comes while both tasks run, the
    grace period passes, the error is logged, and [run] returns, which
    is also how the run ends when the tasks finish within the grace
    period; the exit status is 0. *)
Lemma grace_exceeded_exits_zero :
  exists s,
    exec grace_exceeded_schedule (init empty_world) = Some s /\
    In Interrupt grace_exceeded_schedule /\
    In GraceTimeout grace_exceeded_schedule /\
    pipeline s = TBody /\ server s = TBody /\
    In timeout_logged (events (world s)) /\
    proc s = Some Returned /\
    proc (state_after within_grace_schedule) = Some Returned /\
    exit_status Returned = 0.
Proof.
  eexists. split; [vm_compute; reflexivity |].
  repeat split; in_list.
Qed.

(** C2 as stated fails: pl.Start fails, no interrupt comes, both tasks
    finish, and the process ends by os.Exit(0). *)
Lemma start_failure_exits_zero :
  exists s,
    exec start_fails_schedule (init empty_world) = Some s /\
    ~ In Interrupt start_fails_schedule /\
    pipeline s = TEnd Failed /\
    proc s = Some (Exited 0) /\
    exit_status (Exited 0) = 0.
Proof.
  eexists. split; [vm_compute; reflexivity |].
  split; [cbn; intuition discriminate |]. repeat split.
Qed.

(** * Further properties of the tail *)

(** X7: the WaitGroup's counter stays between 0 and 2 and wg.Done()
    never panics; once both goroutines are launched the counter is zero
    exactly when both tasks have run their wg.Done(). *)
Theorem wait_group_counts_tasks (w : World) (tr : list Label) (s : State) :
  exec tr (init w) = Some s ->
  0 <= wg s <= 2 /\
  proc s <> Some Panicked /\
  (past_go_server (main s) = true ->
   (wg s = 0 <-> dones (pipeline s) = 1 /\ dones (server s) = 1)).
Proof.
  intros E. pose proof (reaches_Inv w tr s (exec_reaches w tr s E)) as I.
  destruct I as [Iwg Ip Isv Iwt Int Ipr Icm Icp Ics Ick Itm].
  rewrite Iwg. split; [| split].
  - destruct (main s), (pipeline s), (server s); cbn in *;
      first [discriminate | lia].
  - intros P. now rewrite P in Ipr.
  - intros G. destruct (main s); try discriminate G;
      destruct (pipeline s), (server s); cbn; lia.
Qed.

(** os.Exit(0) is called only with done closed. *)
Lemma exited_after_done (w : World) (tr : list Label) (s : State) :
  reaches w tr s ->
  forall code, proc s = Some (Exited code) -> done_closed s = true.
Proof.
  revert tr s.
  apply (reaches_induction w
           (fun _ s =>
              forall code, proc s = Some (Exited code) ->
                           done_closed s = true)).
  - discriminate.
  - intros tr s l s' _ _ IH H. by_step s l H; intros code E;
      first [discriminate E | reflexivity | assumption].
Qed.

(** X8: how the tail can end. done is closed only after both tasks have
    run their wg.Done(); the process exits through os.Exit only with
    status 0 and only with done closed; [run] returns only after the
    case <-c was taken, which needs an interrupt, and then the context
    is cancelled; so without an interrupt the process lives as long as
    the body of a task has not come back. *)
Theorem tail_endings (w : World) (tr : list Label) (s : State) :
  exec tr (init w) = Some s ->
  (done_closed s = true ->
   dones (pipeline s) = 1 /\ dones (server s) = 1) /\
  (forall code,
     proc s = Some (Exited code) -> code = 0 /\ done_closed s = true) /\
  (proc s = Some Returned ->
   cancelled s = true /\ In SelectSig tr /\ In Interrupt tr) /\
  (~ In Interrupt tr ->
   body_returned (pipeline s) = false \/ body_returned (server s) = false ->
   proc s = None).
Proof.
  intros E0. pose proof (exec_reaches w tr s E0) as E.
  pose proof (reaches_Inv w tr s E) as I.
  assert (R : proc s = Some Returned ->
              cancelled s = true /\ In SelectSig tr /\ In Interrupt tr).
  { intros P. pose proof (inv_proc s I) as Q. rewrite P in Q.
    assert (S : In SelectSig tr)
      by (apply (interrupt_path_after_sig w tr s E); now right).
    split; [apply Q |]. split; [exact S |].
    exact (sig_after_interrupt w tr s E S). }
  assert (X : forall code,
             proc s = Some (Exited code) -> code = 0 /\ done_closed s = true).
  { intros code P. pose proof (inv_proc s I) as Q. rewrite P in Q.
    split; [apply Q |]. exact (exited_after_done w tr s E code P). }
  split; [apply (done_after_both s I) |]. split; [exact X |].
  split; [exact R |].
  intros NI B. destruct (proc s) as [[code | |] |] eqn:P; [| | | reflexivity].
  - exfalso. destruct (X code eq_refl) as [_ D].
    destruct (done_after_both s I D) as [D1 D2].
    destruct (pipeline s), (server s); cbn in *;
      destruct B; discriminate.
  - exfalso. now apply NI, R.
  - exfalso. pose proof (inv_proc s I) as Q. now rewrite P in Q.
Qed.

(** X9: the timer case of the select of line 206 is never taken early:
    on every schedule, between entering that select and taking its timer
    case at least gracefulTimeout, 5000 ms, has passed. *)
Theorem grace_timeout_not_early (w : World) (x y z : list Label)
    (s : State) :
  exec (x ++ EnterGrace :: y ++ GraceTimeout :: z) (init w) = Some s ->
  5000 * Millisecond <= ticks y.
Proof.
  intros E. rewrite exec_app in E.
  destruct (exec x (init w)) as [s1 |]; [| discriminate]. cbn in E.
  destruct (step EnterGrace s1) as [s2 |] eqn:S1; [| discriminate].
  rewrite exec_app in E.
  destruct (exec y s2) as [s3 |] eqn:Y; [| discriminate]. cbn in E.
  destruct (step GraceTimeout s3) as [s4 |] eqn:S3; [| discriminate].
  clear E.
  assert (T2 : timer s2 = Some (clock s1 + gracefulTimeout) /\
               clock s2 = clock s1 /\ main s2 = MGrace).
  { unfold step in S1. destruct s1 as [? ? ? ? ? ? ? ? ? m ? ? pr]. cbn in *.
    destruct pr; [discriminate |]. destruct m; try discriminate.
    injection S1 as <-. now cbn. }
  destruct T2 as (T & C & M).
  pose proof (exec_clock y s2 s3 Y) as C3.
  assert (T3 : timer s3 = timer s2)
    by (apply (exec_timer y s2 s3 Y); rewrite M; cbn; lia).
  unfold step in S3. destruct (proc s3); [discriminate |].
  destruct (main s3); try discriminate. rewrite T3, T in S3.
  destruct (Z.leb_spec (clock s1 + gracefulTimeout) (clock s3));
    [| discriminate].
  unfold gracefulTimeout in *. lia.
Qed.

(** A step of a goroutine is taken where the goroutine stands and moves
    it on; no step moves a goroutine back. *)
Lemma step_pos (th : Thread) (l : Label) (s s' : State) :
  Inv s ->
  step l s = Some s' ->
  (thread_pos th s <= thread_pos th s')%nat /\
  (label_thread l = Some th ->
   thread_pos th s = label_pos l /\ (label_pos l < thread_pos th s')%nat).
Proof.
  intros [Iwg Ip Isv Iwt _ _ _ _ _ _ _] H.
  by_step s l H; destruct th as [| t' |]; try destruct t'; cbn;
    try (destruct p; try discriminate Ip);
    try (destruct sv; try discriminate Isv);
    try (destruct wt; try (exfalso; intuition discriminate));
    cbn; (split; [lia |]); intros E; try discriminate E; split; lia.
Qed.

Lemma exec_Inv (tr : list Label) (s s' : State) :
  Inv s -> exec tr s = Some s' -> Inv s'.
Proof.
  revert s. induction tr as [| l tr IH]; intros s I H; cbn in H.
  - now injection H as <-.
  - destruct (step l s) as [s1 |] eqn:E; [| discriminate].
    exact (IH s1 (step_Inv l s s1 I E) H).
Qed.

Lemma exec_pos (th : Thread) (tr : list Label) (s s' : State) :
  Inv s ->
  exec tr s = Some s' -> (thread_pos th s <= thread_pos th s')%nat.
Proof.
  revert s. induction tr as [| l tr IH]; intros s I H; cbn in H.
  - injection H as <-. lia.
  - destruct (step l s) as [s1 |] eqn:E; [| discriminate].
    pose proof (proj1 (step_pos th l s s1 I E)).
    pose proof (IH s1 (step_Inv l s s1 I E) H). lia.
Qed.

(** X10: on every schedule each goroutine's steps come in the order of
    its text, each at most once, and of the cases of one select at most
    one is taken: a step that follows another step of the same goroutine
    stands strictly further down. So done is never closed twice, and the
    select of line 206 never takes both its cases. *)
Theorem program_order (w : World) (tr : list Label) (s : State) :
  exec tr (init w) = Some s ->
  (forall x y l l' th,
     tr = x ++ l :: y ->
     In l' y ->
     label_thread l = Some th ->
     label_thread l' = Some th ->
     (label_pos l < label_pos l')%nat) /\
  (forall x y, tr = x ++ CloseDone :: y -> ~ In CloseDone y) /\
  ~ (In GraceDone tr /\ In GraceTimeout tr).
Proof.
  intros E.
  assert (O : forall x y l l' th,
             tr = x ++ l :: y -> In l' y ->
             label_thread l = Some th -> label_thread l' = Some th ->
             (label_pos l < label_pos l')%nat).
  { intros x y l l' th -> Hy Hl Hl'.
    apply in_split in Hy. destruct Hy as (y1 & y2 & ->).
    rewrite exec_app in E.
    destruct (exec x (init w)) as [s1 |] eqn:X1; [| discriminate].
    cbn in E.
    destruct (step l s1) as [s2 |] eqn:S1; [| discriminate].
    rewrite exec_app in E.
    destruct (exec y1 s2) as [s3 |] eqn:Y; [| discriminate]. cbn in E.
    destruct (step l' s3) as [s4 |] eqn:S3; [| discriminate].
    pose proof (exec_Inv x (init w) s1 (init_Inv w) X1) as I1.
    pose proof (step_Inv l s1 s2 I1 S1) as I2.
    pose proof (exec_Inv y1 s2 s3 I2 Y) as I3.
    destruct (proj2 (step_pos th l s1 s2 I1 S1) Hl) as [_ A].
    destruct (proj2 (step_pos th l' s3 s4 I3 S3) Hl') as [B _].
    pose proof (exec_pos th y1 s2 s3 I2 Y). lia. }
  split; [exact O |]. split.
  - intros x y -> Hy.
    pose proof (O x y CloseDone CloseDone WaiterThread eq_refl Hy
                  eq_refl eq_refl). lia.
  - intros [D T]. apply in_split in D. destruct D as (x & y & ->).
    apply in_app_iff in T. cbn in T. destruct T as [T | [T | T]];
      [| discriminate T |].
    + apply in_split in T. destruct T as (x1 & x2 & ->).
      rewrite <- app_assoc in O. cbn in O.
      pose proof (O x1 (x2 ++ GraceDone :: y) GraceTimeout GraceDone
                    MainThread eq_refl
                    ltac:(apply in_or_app; right; now left)
                    eq_refl eq_refl) as L.
      cbn in L. lia.
    + pose proof (O x y GraceDone GraceTimeout MainThread eq_refl T
                    eq_refl eq_refl) as L.
      cbn in L. lia.
Qed.

(** Who cancelled the context. *)
Lemma cancelled_by (w : World) (tr : list Label) (s : State) :
  reaches w tr s ->
  (9 <= main_pos (main s) <= 10 -> In MainCancel tr)%nat /\
  (main s = MGraceEnter -> In MainCancel tr) /\
  (cancelled s = true ->
   In MainCancel tr \/
   In (TaskCancel PipelineTask) tr \/ In (TaskCancel ServerTask) tr).
Proof.
  revert tr s.
  apply (reaches_induction w
           (fun tr s =>
              (9 <= main_pos (main s) <= 10 -> In MainCancel tr)%nat /\
              (main s = MGraceEnter -> In MainCancel tr) /\
              (cancelled s = true ->
               In MainCancel tr \/
               In (TaskCancel PipelineTask) tr \/
               In (TaskCancel ServerTask) tr))).
  - cbn. repeat split; intros; first [lia | discriminate].
  - intros tr s l s' _ _ (IH1 & IH2 & IH3) H.
    by_step s l H; cbn in IH1, IH2;
      (split; [| split]); intros E; cbn in E;
      try discriminate E; try lia;
      repeat rewrite in_app_iff; cbn;
      try solve [ tauto
                | left; first [apply IH1; lia | now apply IH2]
                | left; left; first [apply IH1; lia | now apply IH2]
                | destruct (IH3 E) as [? | [? | ?]]; tauto ].
Qed.

Lemma task_cancel_ends (w : World) (tr : list Label) (s : State)
    (tk : TaskId) :
  reaches w tr s -> In (TaskCancel tk) tr -> ended (task_pc tk s) = true.
Proof.
  revert tr s.
  apply (reaches_induction w
           (fun tr s =>
              In (TaskCancel tk) tr -> ended (task_pc tk s) = true)).
  - cbn. tauto.
  - intros tr s l s' _ I IH H.
    pose proof (inv_pipeline s I) as Ip. pose proof (inv_server s I) as Isv.
    clear I. revert Ip Isv.
    by_step s l H; destruct tk; intros Ip Isv E; trace_pick;
      solve [destruct p; discriminate | destruct sv; discriminate].
Qed.

Lemma main_cancel_after_sig (w : World) (tr : list Label) (s : State) :
  reaches w tr s -> In MainCancel tr -> In SelectSig tr.
Proof.
  revert tr s.
  apply (reaches_induction w (fun tr _ => In MainCancel tr -> In SelectSig tr)).
  - cbn. tauto.
  - intros tr s l s' R _ IH H E. apply in_or_app.
    apply in_app_iff in E. destruct E as [E | [E | []]]; [left; now apply IH |].
    subst l. left. apply (interrupt_path_after_sig w tr s R). left.
    unfold step in H. destruct (proc s); [discriminate |].
    now destruct (main s).
Qed.

(** X11: the context is cancelled only by the cancel() of line 205 or by
    the deferred cancel() of a task goroutine (or, after line 205, by
    the deferred cancel() of [run]); so on a schedule without interrupt
    a cancelled context means that a task goroutine has ended. *)
Theorem cancel_provenance (w : World) (tr : list Label) (s : State) :
  exec tr (init w) = Some s ->
  cancelled s = true ->
  (In MainCancel tr \/
   In (TaskCancel PipelineTask) tr \/ In (TaskCancel ServerTask) tr) /\
  (~ In Interrupt tr ->
   ended (pipeline s) = true \/ ended (server s) = true).
Proof.
  intros E0 C. pose proof (exec_reaches w tr s E0) as E.
  pose proof (proj2 (proj2 (cancelled_by w tr s E)) C) as P.
  split; [exact P |]. intros NI.
  destruct P as [P | [P | P]].
  - exfalso. apply NI, (sig_after_interrupt w tr s E).
    exact (main_cancel_after_sig w tr s E P).
  - left. exact (task_cancel_ends w tr s PipelineTask E P).
  - right. exact (task_cancel_ends w tr s ServerTask E P).
Qed.

Ltac leb_yes :=
  repeat match goal with
         | |- context [?a <=? ?b] =>
             destruct (Z.leb_spec a b);
             [zcbn | exfalso; unfold gracefulTimeout, Millisecond in *; lia]
         end.

(** X12: after an interrupt the shutdown cannot hang on the tasks. From
    every state in which the main goroutine has an interrupt to receive
    or has received one, the main goroutine's own steps and the passing
    of at most gracefulTimeout end the process by [run] returning, with
    the task goroutines standing where they stood. *)
Theorem interrupt_forces_return (w : World) (tr : list Label) (s : State) :
  exec tr (init w) = Some s ->
  on_interrupt_path (main s) = true \/
  (main s = MSelect /\ sig_pending s = true) ->
  exists s',
    exec (force_out s) s = Some s' /\
    proc s' = Some Returned /\
    pipeline s' = pipeline s /\ server s' = server s /\
    clock s' <= clock s + gracefulTimeout /\
    Forall (fun l => label_thread l = Some MainThread \/ exists d, l = Tick d)
      (force_out s).
Proof.
  intros E H. pose proof (reaches_Inv w tr s (exec_reaches w tr s E)) as I.
  assert (A : proc s = None).
  { apply (alive_of_main s I). destruct H as [H | [H _]];
      destruct (main s); discriminate. }
  pose proof (inv_timer s I) as T. clear E I.
  destruct s as [w_ c g p sv wt dc nt sp m ck tm pr].
  hcbn. subst pr.
  destruct m; destruct H as [H | [H1 H2]]; try discriminate;
    unfold force_out; cbn [main sig_pending timer clock];
    try rewrite H2;
    try (destruct tm as [deadline |]; [| exfalso; tauto]);
    unfold exec, step, cancel, log; zcbn; leb_yes;
    eexists; (split; [reflexivity |]); zcbn;
    repeat (split; [first [reflexivity
                          | unfold gracefulTimeout, Millisecond in *; lia] |]);
    repeat (apply Forall_cons;
            [first [left; reflexivity | right; eexists; reflexivity] |]);
    apply Forall_nil.
Qed.

(** What a state tells about the steps taken. *)
Lemma state_history (w : World) (tr : list Label) (s : State) :
  reaches w tr s ->
  (started (pipeline s) = true -> In GoPipeline tr) /\
  (started (server s) = true -> In GoServer tr) /\
  (dones (pipeline s) = 1 -> In (TaskWgDone PipelineTask) tr) /\
  (dones (server s) = 1 -> In (TaskWgDone ServerTask) tr) /\
  (waiter s <> WNotStarted -> In GoWaiter tr) /\
  (done_closed s = true -> In CloseDone tr) /\
  (notified s = true -> In Notify tr).
Proof.
  revert tr s.
  apply (reaches_induction w
           (fun tr s =>
              (started (pipeline s) = true -> In GoPipeline tr) /\
              (started (server s) = true -> In GoServer tr) /\
              (dones (pipeline s) = 1 -> In (TaskWgDone PipelineTask) tr) /\
              (dones (server s) = 1 -> In (TaskWgDone ServerTask) tr) /\
              (waiter s <> WNotStarted -> In GoWaiter tr) /\
              (done_closed s = true -> In CloseDone tr) /\
              (notified s = true -> In Notify tr))).
  - cbn. repeat split; intros; first [discriminate | congruence].
  - intros tr s l s' _ _ (H1 & H2 & H3 & H4 & H5 & H6 & H7) H.
    by_step s l H; cbn in H1, H2, H3, H4, H5, H6, H7;
      repeat split; intros E; cbn in E; apply in_or_app;
      first [ right; left; reflexivity
            | left; first [ apply H1 | apply H2 | apply H3 | apply H4
                          | apply H5 | apply H6 | apply H7 ];
              first [exact E | reflexivity | discriminate | congruence]
            | discriminate E
            | exfalso; congruence ].
Qed.

(** X13: what comes before what across the goroutines. A task's body
    comes back only after the go statement that started it; wg.Wait()
    returns only after the waiting goroutine was started and both tasks
    have run their wg.Done(); a case <-done is taken only after
    close(done); the case <-c is taken only after signal.Notify and an
    interrupt. *)
Theorem happens_before (w : World) (tr : list Label) (s : State) :
  exec tr (init w) = Some s ->
  (forall x y r, tr = x ++ TaskReturn PipelineTask r :: y ->
                 In GoPipeline x) /\
  (forall x y r, tr = x ++ TaskReturn ServerTask r :: y -> In GoServer x) /\
  (forall x y, tr = x ++ WaitReturn :: y ->
               In GoWaiter x /\
               In (TaskWgDone PipelineTask) x /\
               In (TaskWgDone ServerTask) x) /\
  (forall x y l, l = SelectDone \/ l = GraceDone ->
                 tr = x ++ l :: y -> In CloseDone x) /\
  (forall x y, tr = x ++ SelectSig :: y -> In Notify x /\ In Interrupt x).
Proof.
  intros E.
  assert (P : forall x y l,
             tr = x ++ l :: y ->
             exists s1 s2, reaches w x s1 /\ step l s1 = Some s2).
  { intros x y l ->. destruct (exec_split _ _ _ _ _ E) as (s1 & s2 & E1 & S).
    exists s1, s2. split; [now apply exec_reaches | exact S]. }
  repeat split.
  - intros x y r Hx. destruct (P _ _ _ Hx) as (s1 & s2 & R & S).
    apply (state_history w x s1 R). unfold step in S.
    destruct (proc s1); [discriminate |]. cbn in S.
    now destruct (pipeline s1).
  - intros x y r Hx. destruct (P _ _ _ Hx) as (s1 & s2 & R & S).
    apply (state_history w x s1 R). unfold step in S.
    destruct (proc s1); [discriminate |]. cbn in S.
    now destruct (server s1).
  - destruct (P _ _ _ H) as (s1 & s2 & R & S).
    apply (state_history w x s1 R). unfold step in S.
    destruct (proc s1); [discriminate |]. now destruct (waiter s1).
  - destruct (P _ _ _ H) as (s1 & s2 & R & S).
    pose proof (reaches_Inv w x s1 R) as I.
    pose proof (inv_wg s1 I) as Iwg. pose proof (inv_waiter s1 I) as Iwt.
    apply (state_history w x s1 R). unfold step in S.
    destruct (proc s1); [discriminate |].
    destruct (waiter s1); try discriminate.
    destruct (Z.eqb_spec (wg s1) 0) as [Z0 | _]; [| discriminate].
    destruct Iwt as [G _]. rewrite Z0 in Iwg.
    destruct (main s1); try discriminate G;
      destruct (pipeline s1), (server s1); cbn in *; lia.
  - destruct (P _ _ _ H) as (s1 & s2 & R & S).
    pose proof (reaches_Inv w x s1 R) as I.
    pose proof (inv_wg s1 I) as Iwg. pose proof (inv_waiter s1 I) as Iwt.
    apply (state_history w x s1 R). unfold step in S.
    destruct (proc s1); [discriminate |].
    destruct (waiter s1); try discriminate.
    destruct (Z.eqb_spec (wg s1) 0) as [Z0 | _]; [| discriminate].
    destruct Iwt as [G _]. rewrite Z0 in Iwg.
    destruct (main s1); try discriminate G;
      destruct (pipeline s1), (server s1); cbn in *; lia.
  - intros x y l Hl Hx. destruct (P _ _ _ Hx) as (s1 & s2 & R & S).
    apply (state_history w x s1 R). unfold step in S.
    destruct (proc s1); [discriminate |].
    destruct Hl as [-> | ->]; destruct (main s1); try discriminate;
      now destruct (done_closed s1).
  - destruct (P _ _ _ H) as (s1 & s2 & R & S).
    pose proof (reaches_Inv w x s1 R) as I.
    apply (state_history w x s1 R). rewrite (inv_notified s1 I).
    unfold step in S. destruct (proc s1); [discriminate |].
    now destruct (main s1).
  - destruct (P _ _ _ H) as (s1 & s2 & R & S).
    apply (pending_after_interrupt w x s1 R).
    unfold step in S. destruct (proc s1); [discriminate |].
    destruct (main s1); try discriminate. now destruct (sig_pending s1).
Qed.

(** * The further properties at concrete runs *)

Lemma startup_stops_at_first_failure_witness :
  snd (startup sample_externals env_no_azure empty_world) =
    inr (LoggerFatalf AtAzure).
Proof.
  exact (proj2 (startup_stops_at_first_failure sample_externals env_no_azure
                  empty_world (LoggerFatalf AtAzure)) eq_refl).
Defined.

Lemma startup_launches_iff_witness :
  exists la, snd (startup sample_externals env_ok empty_world) = inl la.
Proof.
  apply (proj2 (startup_launches_iff sample_externals env_ok empty_world)).
  split; [exists sample_config; reflexivity |].
  repeat constructor.
Defined.

Lemma constructors_called_in_order_witness :
  exists added,
    events (fst (startup sample_externals env_no_azure empty_world)) = added /\
    (exists rest, call_order = calls added ++ rest) /\
    NoDup (calls added) /\
    (forall la,
       snd (startup sample_externals env_no_azure empty_world) = inl la ->
       calls added = call_order) /\
    last (calls added) LoadNucleusConfig = NewAzureBlobEnv /\
    (forall pre post,
       calls added = pre ++ NewAzureBlobEnv :: post -> post = []).
Proof.
  destruct (constructors_called_in_order sample_externals env_no_azure
              empty_world) as (added & E & P & D & L & _ & F & _).
  exists added. split; [exact E |]. split; [exact P |]. split; [exact D |].
  split; [exact L |].
  assert (A : calls added =
              [LoadNucleusConfig; NewLogger; NewPipeline; teststats_New;
               NewAzureBlobEnv]).
  { vm_compute in E. now subst added. }
  split; [now rewrite A |].
  intros pre post H. apply (F pre NewAzureBlobEnv post H); [in_list |].
  discriminate.
Defined.

Lemma early_failure_keeps_host_witness :
  snd (startup sample_externals env_no_config empty_world) =
    inr (OsExit 1) /\
  NeuronHost (fst (startup sample_externals env_no_config empty_world)) = "" /\
  host_sets
    (events (fst (startup sample_externals env_no_config empty_world))) =
    0%nat.
Proof.
  apply (early_failure_keeps_host sample_externals env_no_config empty_world).
  left. exists "open .nucleus.json: no such file". reflexivity.
Defined.

Lemma one_configuration_for_all_witness :
  exists cfg' added,
    events (fst (startup sample_externals env_ok empty_world)) = added /\
    LogFile cfg' = "/var/log/nucleus" /\
    Verbose cfg' = false /\
    LocalRunner cfg' = true /\
    SynapseHost cfg' = " 10.0.0.7 " /\
    Forall (fun e => Forall (eq cfg') (cfg_args e)) added /\
    (forall la,
       snd (startup sample_externals env_ok empty_world) = inl la ->
       la_cfg la = cfg').
Proof.
  exact (one_configuration_for_all sample_externals env_ok empty_world
           sample_config eq_refl).
Defined.

Lemma launched_parts_share_witness :
  exists la,
    snd (startup sample_externals env_ok empty_world) = inl la /\
    la_router la = ONew NewRouter [la_logger la; TestStats (la_pl la)].
Proof.
  eexists. split; [vm_compute; reflexivity |].
  match goal with
  | |- la_router ?la = _ =>
      refine (proj1 (launched_parts_share sample_externals env_ok empty_world
                       (fst (startup sample_externals env_ok empty_world))
                       la _))
  end.
  vm_compute; reflexivity.
Defined.

Lemma wait_group_counts_tasks_witness :
  0 <= wg (state_after start_fails_schedule) <= 2 /\
  (wg (state_after start_fails_schedule) = 0 <->
   dones (pipeline (state_after start_fails_schedule)) = 1 /\
   dones (server (state_after start_fails_schedule)) = 1).
Proof.
  destruct (wait_group_counts_tasks empty_world start_fails_schedule
              (state_after start_fails_schedule))
    as (B & _ & Z0); [vm_compute; reflexivity |].
  split; [exact B |]. apply Z0. vm_compute; reflexivity.
Defined.

Lemma tail_endings_witness :
  0 = 0 /\ done_closed (state_after start_fails_schedule) = true.
Proof.
  destruct (tail_endings empty_world start_fails_schedule
              (state_after start_fails_schedule))
    as (_ & X & _); [vm_compute; reflexivity |].
  apply X. vm_compute; reflexivity.
Defined.

Lemma grace_timeout_not_early_witness :
  5000 * Millisecond <= ticks [Tick (5000 * Millisecond)].
Proof.
  refine (grace_timeout_not_early empty_world
            [WgAdd1; GoPipeline; WgAdd2; GoServer; Notify; GoWaiter;
             Interrupt; SelectSig; MainCancel]
            [Tick (5000 * Millisecond)] [RunReturn]
            (state_after grace_exceeded_schedule) _).
  vm_compute; reflexivity.
Defined.

Lemma program_order_witness :
  (label_pos MainCancel < label_pos GraceTimeout)%nat /\
  ~ (In GraceDone grace_exceeded_schedule /\
     In GraceTimeout grace_exceeded_schedule).
Proof.
  destruct (program_order empty_world grace_exceeded_schedule
              (state_after grace_exceeded_schedule))
    as (O & _ & N); [vm_compute; reflexivity |].
  split; [| exact N].
  refine (O [WgAdd1; GoPipeline; WgAdd2; GoServer; Notify; GoWaiter;
             Interrupt; SelectSig]
            [EnterGrace; Tick (5000 * Millisecond); GraceTimeout; RunReturn]
            MainCancel GraceTimeout MainThread eq_refl _ eq_refl eq_refl).
  in_list.
Defined.

Lemma cancel_provenance_witness :
  In MainCancel start_fails_schedule \/
  In (TaskCancel PipelineTask) start_fails_schedule \/
  In (TaskCancel ServerTask) start_fails_schedule.
Proof.
  refine (proj1 (cancel_provenance empty_world start_fails_schedule
                   (state_after start_fails_schedule) _ _));
    vm_compute; reflexivity.
Defined.

Lemma interrupt_forces_return_witness :
  exists s',
    exec (force_out (state_after interrupted_schedule))
      (state_after interrupted_schedule) = Some s' /\
    proc s' = Some Returned /\
    pipeline s' = TBody /\ server s' = TBody.
Proof.
  destruct (interrupt_forces_return empty_world interrupted_schedule
              (state_after interrupted_schedule))
    as (s' & E & P & T1 & T2 & _);
    [vm_compute; reflexivity | right; split; vm_compute; reflexivity |].
  exists s'. repeat split; assumption.
Defined.

Lemma happens_before_witness :
  In GoWaiter
    [WgAdd1; GoPipeline; WgAdd2; GoServer; Notify; GoWaiter;
     TaskReturn PipelineTask Failed; TaskWgDone PipelineTask;
     TaskCancel PipelineTask;
     TaskReturn ServerTask Succeeded; TaskWgDone ServerTask;
     TaskCancel ServerTask] /\
  In (TaskWgDone PipelineTask)
    [WgAdd1; GoPipeline; WgAdd2; GoServer; Notify; GoWaiter;
     TaskReturn PipelineTask Failed; TaskWgDone PipelineTask;
     TaskCancel PipelineTask;
     TaskReturn ServerTask Succeeded; TaskWgDone ServerTask;
     TaskCancel ServerTask] /\
  In (TaskWgDone ServerTask)
    [WgAdd1; GoPipeline; WgAdd2; GoServer; Notify; GoWaiter;
     TaskReturn PipelineTask Failed; TaskWgDone PipelineTask;
     TaskCancel PipelineTask;
     TaskReturn ServerTask Succeeded; TaskWgDone ServerTask;
     TaskCancel ServerTask].
Proof.
  destruct (happens_before empty_world start_fails_schedule
              (state_after start_fails_schedule))
    as (_ & _ & W & _); [vm_compute; reflexivity |].
  exact (W [WgAdd1; GoPipeline; WgAdd2; GoServer; Notify; GoWaiter;
            TaskReturn PipelineTask Failed; TaskWgDone PipelineTask;
            TaskCancel PipelineTask;
            TaskReturn ServerTask Succeeded; TaskWgDone ServerTask;
            TaskCancel ServerTask]
           [CloseDone; SelectDone] eq_refl).
Defined.
